(** * tiff2pdf: batch conversion of TIFF files into one merged PDF

    A shallow embedding of [tiff2pdf.py] (functions [check_hex],
    [tiff_to_pdf] and [main]) together with the properties its
    specification states about them.

    The development follows [tiff2pdf.py]; [tiff2pdf_v1.py] is its earlier
    version, with the same [check_hex] (less the diagnostic) and the same
    [tiff_to_pdf], and a [main] that neither filters by argument nor deletes
    the sources.

    Python values are modelled as follows:
    - [str] as [string] (a sequence of 8-bit characters);
    - [bytes] as [list byte];
    - the file system as a finite map from path names to file contents;
    - exceptions and console output through a state-and-error monad over a
      [world] made of the file system and a chronological event log. *)

From Stdlib Require Import ZArith List Bool Lia.
From Stdlib.Strings Require Import String Ascii Byte.
From stdpp Require Import base option list gmap strings.

(** ** Python string primitives *)

Module PyStr.

(** [s.startswith(pre)] *)
Fixpoint startswith (s pre : string) {struct pre} : bool :=
  match pre with
  | EmptyString => true
  | String a pre' =>
      match s with
      | EmptyString => false
      | String b s' => Ascii.eqb a b && startswith s' pre'
      end
  end.

(** [s.endswith(suf)]: [s] is [suf] itself or its tail ends with [suf]. *)
Fixpoint endswith (s suf : string) {struct s} : bool :=
  String.eqb s suf ||
  match s with
  | EmptyString => false
  | String _ s' => endswith s' suf
  end.

(** [sub in s]: [sub] occurs at the head of [s] or somewhere in its tail. *)
Fixpoint contains (sub s : string) {struct s} : bool :=
  startswith s sub ||
  match s with
  | EmptyString => false
  | String _ s' => contains sub s'
  end.

(** [s.replace(old, new)] for a non-empty [old]: a left-to-right scan that
    substitutes every non-overlapping occurrence.  [skip] counts the
    characters of a matched occurrence that are still to be dropped. *)
Fixpoint replace_from (old new : string) (skip : nat) (s : string) : string :=
  match s with
  | EmptyString => EmptyString
  | String c s' =>
      match skip with
      | S k => replace_from old new k s'
      | O =>
          if startswith s old
          then new +:+ replace_from old new (String.length old - 1) s'
          else String c (replace_from old new 0 s')
      end
  end.

(** [s.replace("", new)] inserts [new] before every character and at the
    end. *)
Fixpoint intersperse (new s : string) : string :=
  match s with
  | EmptyString => new
  | String c s' => new +:+ String c (intersperse new s')
  end.

Definition replace (old new s : string) : string :=
  match old with
  | EmptyString => intersperse new s
  | String _ _ => replace_from old new 0 s
  end.

(** [s[:n]] *)
Fixpoint slice_to (n : nat) (s : string) : string :=
  match n, s with
  | S n', String c s' => String c (slice_to n' s')
  | _, _ => EmptyString
  end.

(** [s.lower()] when [s] holds ASCII characters only: the letters [A-Z]
    are the only cased ones.  On other text [str.lower()] follows the case
    mapping of the Unicode tables of the interpreter, which is a capability
    of the host ([str_lower] below); this function is the one the concrete
    hosts of this file provide, and they are run on ASCII job identifiers
    only. *)
Definition lower_char (c : ascii) : ascii :=
  let n := nat_of_ascii c in
  if (65 <=? n)%nat && (n <=? 90)%nat then ascii_of_nat (n + 32) else c.

Fixpoint lower_ascii (s : string) : string :=
  match s with
  | EmptyString => EmptyString
  | String c s' => String (lower_char c) (lower_ascii s')
  end.

(** [name in names] for a list of strings. *)
Definition mem (name : string) (names : list string) : bool :=
  existsb (String.eqb name) names.

End PyStr.

(** ** Python bytes primitives *)

Module PyBytes.

Definition hex_digit (n : nat) : ascii :=
  match String.get n "0123456789abcdef" with
  | Some c => c
  | None => "0"%char
  end.

(** The two lower-case hexadecimal digits of one byte. *)
Definition hex_hi (b : byte) : ascii := hex_digit (Byte.to_nat b / 16).
Definition hex_lo (b : byte) : ascii := hex_digit (Byte.to_nat b mod 16).

(** [binascii.hexlify(chunk)]; the result only holds characters of
    [0-9a-f], so it is kept as a [string]. *)
Fixpoint hexlify (chunk : list byte) : string :=
  match chunk with
  | [] => EmptyString
  | b :: chunk' => String (hex_hi b) (String (hex_lo b) (hexlify chunk'))
  end.

(** [str(h)] of a bytes object [h] of hexadecimal digits: the [repr] of
    such an object needs no escape and is delimited by single quotes. *)
Definition str (h : string) : string := "b'" +:+ h +:+ "'".

(** The inverse of [hex_hi]/[hex_lo] on one pair of digits
    ([binascii.unhexlify]). *)
Definition hex_value (c : ascii) : nat :=
  match c with
  | "0" => 0 | "1" => 1 | "2" => 2 | "3" => 3 | "4" => 4 | "5" => 5
  | "6" => 6 | "7" => 7 | "8" => 8 | "9" => 9 | "a" => 10 | "b" => 11
  | "c" => 12 | "d" => 13 | "e" => 14 | "f" => 15 | _ => 0
  end%char.

Definition unhex (hi lo : ascii) : byte :=
  match Byte.of_nat (16 * hex_value hi + hex_value lo) with
  | Some b => b
  | None => x00
  end.

End PyBytes.

(** ** Exceptions, observable events and the world *)

Inductive exn : Type :=
  | FileNotFoundError (path : string)      (* [open], [os.remove], [Image.open] *)
  | Exception (msg : string)               (* [raise Exception(...)] *)
  | IndexError                             (* [sys.argv[1]], [images[0]] *)
  | UnidentifiedImageError (path : string) (* [Image.open] on undecodable data *)
  | ValueError (path : string)             (* [Image.save] refusing a target *)
  | PdfReadError (path : string)           (* [merger.append] on a broken PDF *)
  | SystemExit.                            (* [quit()] *)

Inductive event : Type :=
  | EvPrint (line : string)
  | EvOpen (path : string)
  | EvRead (path : string) (got : nat)
  | EvExists (path : string)
  | EvImageOpen (path : string)
  | EvSave (path : string)
  | EvListdir (path : string)
  | EvAppend (path : string)
  | EvWrite (path : string)
  | EvRemove (path : string).

(** The file system holds regular files only, keyed by their path; the
    directories [pdf/input] and [pdf/output] are taken to exist. *)
Record world : Type := World {
  fs : gmap string (list byte);
  log : list event
}.

(** A file object opened for reading: what is left to read. *)
Record handle : Type := Handle {
  h_path : string;
  h_rest : list byte
}.

Inductive byteorder : Type := Little | Big.

(** What the host provides: [sys.byteorder], the order in which
    [os.listdir] enumerates a directory, and [str.lower()], whose case
    mapping is that of the Unicode tables of the interpreter (a [str] is kept
    here as the characters of its encoding). *)
Class Host : Type := {
  sys_byteorder : byteorder;
  listdir : gmap string (list byte) → string → list string;
  str_lower : string → string
}.

(** The external image and PDF capabilities (PIL and PyPDF2). *)
Class Codec : Type := {
  frame : Type;
  page : Type;
  (* [Image.open] followed by [ImageSequence.Iterator]: the frames in
     on-disk order, or no image at all *)
  image_frames : list byte → option (list frame);
  (* [page.convert("RGB")] *)
  convert_rgb : frame → page;
  (* [first.save(path, save_all=True, append_images=rest)]; the output
     format is chosen from the extension of [path] *)
  image_save : string → page → list page → option (list byte);
  (* the pages [PdfFileMerger.append] takes from a file *)
  pdf_pages : list byte → option (list page);
  (* [PdfFileMerger.write] *)
  pdf_write : list page → list byte
}.

(** ** The monad of effects *)

Definition M (A : Type) : Type := world → (exn + A) * world.

#[global] Instance M_ret : MRet M := λ A a w, (inr a, w).

#[global] Instance M_bind : MBind M := λ A B k m w,
  match m w with
  | (inl e, w') => (inl e, w')
  | (inr a, w') => k a w'
  end.

#[global] Instance M_throw : MThrow exn M := λ A e w, (inl e, w).

Definition emit (e : event) : M unit :=
  λ w, (inr tt, World (fs w) (log w ++ [e])).

Definition print (line : string) : M unit := emit (EvPrint line).

(** [open(path, "rb")] *)
Definition open_rb (path : string) : M handle :=
  λ w, match fs w !! path with
       | Some content => (inr (Handle path content), World (fs w) (log w ++ [EvOpen path]))
       | None => (inl (FileNotFoundError path), w)
       end.

(** [f.read(size)] *)
Definition f_read (size : nat) (f : handle) : M (list byte * handle) :=
  let chunk := take size (h_rest f) in
  emit (EvRead (h_path f) (length chunk));;
  mret (chunk, Handle (h_path f) (drop size (h_rest f))).

(** [os.path.exists(path)] *)
Definition os_path_exists (path : string) : M bool :=
  λ w, (inr (bool_decide (is_Some (fs w !! path))),
        World (fs w) (log w ++ [EvExists path])).

(** [os.remove(path)] *)
Definition os_remove (path : string) : M unit :=
  λ w, match fs w !! path with
       | Some _ => (inr tt, World (delete path (fs w)) (log w ++ [EvRemove path]))
       | None => (inl (FileNotFoundError path), w)
       end.

(** The whole content of an existing file, as a library reads it. *)
Definition file_content (path : string) : M (list byte) :=
  λ w, match fs w !! path with
       | Some content => (inr content, w)
       | None => (inl (FileNotFoundError path), w)
       end.

(** The write that ends [Image.save] and [PdfFileMerger.write].  A file is
    kept under the path it is written to: the target is taken to lie in a
    directory that exists and to be named by the path under which it is
    listed and read ([dir/name], with no [..] and no link on the way).  The
    script writes beside the source it has just read, and to
    [pdf/output/<name>]; the properties of [main] that depend on the second
    target ask that [<name>] be a plain file name ([plain_output] below). *)
Definition write_file (path : string) (content : list byte) : M unit :=
  λ w, (inr tt, World (<[path := content]> (fs w)) (log w)).

(** [os.listdir(path)] *)
Definition os_listdir `{Host} (path : string) : M (list string) :=
  λ w, (inr (listdir (fs w) path), World (fs w) (log w ++ [EvListdir path])).

(** [os.path.join(a, b)] on a POSIX host. *)
Definition os_path_join (a b : string) : string :=
  if PyStr.startswith b "/" then b
  else if String.eqb a "" || PyStr.endswith a "/" then a +:+ b
  else a +:+ "/" +:+ b.

(** ** [check_hex] *)

Definition byte_sig (endian : byteorder) : string :=
  match endian with
  | Little => "b'49492a00"
  | Big => "b'4d4d002a"
  end.

(** The loop [for chunk in iter(lambda: f.read(32), b"")].  [fuel] only
    makes the recursion structural: [check_hex] passes more than the number
    of bytes left, and every round that continues has consumed one. *)
Fixpoint read_chunks (fuel : nat) (f : handle) (hex_dump : string) (n : Z)
  : M string :=
  match fuel with
  | O => mret hex_dump
  | S fuel' =>
      '(chunk, f') ← f_read 32 f;
      match chunk with
      | [] => mret hex_dump
      | _ :: _ =>
          let hex_dump := hex_dump +:+ PyBytes.str (PyBytes.hexlify chunk) in
          let n := (n + 1)%Z in
          if (n >? 10)%Z then mret hex_dump
          else read_chunks fuel' f' hex_dump n
      end
  end.

Definition check_hex `{Host} (file_path : string) : M bool :=
  let endian := sys_byteorder in
  let byte_sig := byte_sig endian in
  f ← open_rb file_path;
  hex_dump ← read_chunks (S (length (h_rest f))) f "" 0;
  if String.eqb (PyStr.slice_to 10 hex_dump) byte_sig then mret true
  else
    print ("Error Code 2: File at " +:+ file_path +:+ " is not signed as TIFF.");;
    mret false.

(** ** [tiff_to_pdf] *)

Definition pdf_path_of (tiff_path : string) : string :=
  if PyStr.contains ".tiff" tiff_path
  then PyStr.replace ".tiff" ".pdf" tiff_path
  else PyStr.replace ".tif" ".pdf" tiff_path.

(** [Image.open(path)] with all its frames iterated. *)
Definition image_open `{Codec} (path : string) : M (list frame) :=
  emit (EvImageOpen path);;
  content ← file_content path;
  match image_frames content with
  | Some frames => mret frames
  | None => mthrow (UnidentifiedImageError path)
  end.

Definition save_pages `{Codec} (path : string) (first : page) (rest : list page)
  : M unit :=
  match image_save path first rest with
  | Some content => emit (EvSave path);; write_file path content
  | None => mthrow (ValueError path)
  end.

Definition tiff_to_pdf `{Codec} (tiff_path : string) : M string :=
  let pdf_path := pdf_path_of tiff_path in
  found ← os_path_exists tiff_path;
  (if negb found then
     print "Exiting with Error Code 1:";;
     mthrow (Exception (tiff_path +:+ " does not find."))
   else mret tt);;
  image ← image_open tiff_path;
  let images := convert_rgb <$> image in
  (if (length images =? 1)%nat then
     match images with
     | first :: _ => save_pages pdf_path first []
     | [] => mthrow IndexError
     end
   else
     match images with
     | first :: rest => save_pages pdf_path first rest
     | [] => mthrow IndexError
     end);;
  print (pdf_path +:+ " created");;
  mret pdf_path.

(** ** [main] *)

(** The first loop of [main]: filter the listing and convert. *)
Fixpoint convert_loop `{Host} `{Codec} (pat_files : list string)
    (input_path : string) (listing : list string)
    (middle_file_names : list string) : M (list string) :=
  match listing with
  | [] => mret middle_file_names
  | file :: listing' =>
      if PyStr.endswith file ".tiff" || PyStr.endswith file ".tif" then
        signed ← check_hex (os_path_join input_path file);
        if signed && PyStr.mem file pat_files then
          pdf ← tiff_to_pdf (os_path_join input_path file);
          convert_loop pat_files input_path listing' (middle_file_names ++ [pdf])
        else convert_loop pat_files input_path listing' middle_file_names
      else convert_loop pat_files input_path listing' middle_file_names
  end.

(** [merger.append(pdf)]: the merger is the sequence of pages gathered. *)
Definition merger_append `{Codec} (pdf : string) (merger : list page)
  : M (list page) :=
  emit (EvAppend pdf);;
  content ← file_content pdf;
  match pdf_pages content with
  | Some pages => mret (merger ++ pages)
  | None => mthrow (PdfReadError pdf)
  end.

Fixpoint append_all `{Codec} (middle_file_names : list string)
    (merger : list page) : M (list page) :=
  match middle_file_names with
  | [] => mret merger
  | pdf :: rest => merger ← merger_append pdf merger; append_all rest merger
  end.

(** [merger.write(path)] *)
Definition merger_write `{Codec} (path : string) (merger : list page) : M unit :=
  emit (EvWrite path);; write_file path (pdf_write merger).

(** "Delete middle files." *)
Fixpoint remove_middle_files (middle_file_names : list string) : M unit :=
  match middle_file_names with
  | [] => mret tt
  | file :: rest =>
      print ("Removing " +:+ file +:+ ".");;
      os_remove file;;
      remove_middle_files rest
  end.

(** "Delete origin files for this batch" *)
Fixpoint remove_origin_files (pat_files : list string) (input_path : string)
    (listing : list string) : M unit :=
  match listing with
  | [] => mret tt
  | file :: rest =>
      if PyStr.mem file pat_files then
        print ("Removing " +:+ file +:+ ".");;
        os_remove (os_path_join input_path file);;
        remove_origin_files pat_files input_path rest
      else remove_origin_files pat_files input_path rest
  end.

Definition cleanup `{Host} (pat_files : list string) (input_path : string)
    (middle_file_names : list string) : M unit :=
  remove_middle_files middle_file_names;;
  listing ← os_listdir input_path;
  remove_origin_files pat_files input_path listing.

(** [sys.argv[1].lower().replace(",", "_")] *)
Definition pat_id_of `{Host} (job : string) : string :=
  PyStr.replace "," "_" (str_lower job).

Definition outfile_name (pat_id now : string) : string :=
  pat_id +:+ "_merged_" +:+ now +:+ ".pdf".

(** Where the merged document of a job is written. *)
Definition merged_path `{Host} (job now : string) : string :=
  os_path_join (os_path_join "pdf" "output") (outfile_name (pat_id_of job) now).

(** [main], with [sys.argv] and the formatted [datetime.now()] as inputs. *)
Definition main `{Host} `{Codec} (argv : list string) (now : string) : M unit :=
  let pat_files := argv in
  pat_id ← match argv !! 1%nat with
           | Some job => mret (pat_id_of job)
           | None => mthrow IndexError
           end;
  print "~~~> Launching TIFF to PDF Converter.";;
  let input_path := os_path_join "pdf" "input" in
  listing ← os_listdir input_path;
  middle_file_names ← convert_loop pat_files input_path listing [];
  merger ← append_all middle_file_names [];
  let out_path := os_path_join "pdf" "output" in
  merger_write (os_path_join out_path (outfile_name pat_id now)) merger;;
  print (outfile_name pat_id now +:+ " created succesfully in output path.");;
  cleanup pat_files input_path middle_file_names;;
  print "Exiting with Error Code 0:";;
  print "~~~> Closing TIFF to PDF Converter. Merger Success!";;
  mthrow SystemExit.

(** ** What a directory listing is

    [os.listdir] returns the entries of a directory in an order the host
    chooses.  An entry name is not empty and holds no separator. *)

Definition valid_name (name : string) : bool :=
  negb (String.eqb name "") && negb (PyStr.contains "/" name).

Class HostLaws `{Host} : Prop := {
  listdir_spec : ∀ (files : gmap string (list byte)) (d name : string),
    name ∈ listdir files d ↔
    valid_name name = true ∧ is_Some (files !! (d +:+ "/" +:+ name))
}.

(** ** A concrete host and a concrete codec

    One host and one codec on which the program can be run: the listing is
    taken in the order of the keys of the map; an image is a signature
    followed by one byte per frame, and by one frame at least (a signature
    alone is no image), a PDF the marker [%PDF] followed by one byte per
    page. *)

Module Demo.

Fixpoint string_drop (n : nat) (s : string) : string :=
  match n, s with
  | S n', String _ s' => string_drop n' s'
  | _, _ => s
  end.

Definition entry_name (d path : string) : option string :=
  let pre := d +:+ "/" in
  if PyStr.startswith path pre then
    let name := string_drop (String.length pre) path in
    if valid_name name then Some name else None
  else None.

Definition listdir_keys (files : gmap string (list byte)) (d : string)
  : list string :=
  omap (entry_name d) (map_to_list files).*1.

#[export] Instance little_host : Host :=
  {| sys_byteorder := Little; listdir := listdir_keys;
     str_lower := PyStr.lower_ascii |}.

Definition big_host : Host :=
  {| sys_byteorder := Big; listdir := listdir_keys;
     str_lower := PyStr.lower_ascii |}.

Definition tiff_le : list byte := [x49; x49; x2a; x00].
Definition tiff_be : list byte := [x4d; x4d; x00; x2a].
Definition pdf_magic : list byte := [x25; x50; x44; x46].
Definition png_magic : list byte := [x89; x50; x4e; x47].

Fixpoint bytes_eqb (a b : list byte) : bool :=
  match a, b with
  | [], [] => true
  | x :: a', y :: b' => Byte.eqb x y && bytes_eqb a' b'
  | _, _ => false
  end.

#[export] Instance byte_codec : Codec :=
  {| frame := byte;
     page := byte;
     image_frames content :=
       if bytes_eqb (take 4 content) tiff_le || bytes_eqb (take 4 content) tiff_be
       then match drop 4 content with
            | [] => None
            | frames => Some frames
            end
       else None;
     convert_rgb fr := fr;
     image_save path first rest :=
       if PyStr.endswith path ".pdf" then Some (pdf_magic ++ first :: rest)
       else if PyStr.endswith path ".tiff" || PyStr.endswith path ".tif"
       then Some (tiff_le ++ first :: rest)
       else if PyStr.endswith path ".png" then Some (png_magic ++ [first])
       else None;
     pdf_pages content :=
       if bytes_eqb (take 4 content) pdf_magic then Some (drop 4 content) else None;
     pdf_write pages := pdf_magic ++ pages |}.

Definition world_of (files : list (string * list byte)) : world :=
  World (list_to_map files) [].

(** A directory with a signed TIFF, a TIFF name on other content and a
    text file; only the first and the last are named on the command
    line. *)
Definition mixed_world : world :=
  world_of [("pdf/input/x.tif", tiff_le ++ [x01; x02]);
            ("pdf/input/y.tif", [x00; x01; x02; x03; x04]);
            ("pdf/input/z.txt", [x68; x69])].

Definition mixed_argv : list string := ["tiff2pdf.py"; "Doe,J"; "x.tif"; "z.txt"].

(** A directory whose only TIFF is named like the job identifier, next to
    a file named like the program. *)
Definition job_world : world :=
  world_of [("pdf/input/scan.tif", tiff_le ++ [x05; x06]);
            ("pdf/input/tiff2pdf.py", [x23])].

Definition job_argv : list string := ["tiff2pdf.py"; "scan.tif"].

(** Two signed TIFFs, named on the command line in the order opposite to
    the one in which they are listed. *)
Definition ordered_world : world :=
  world_of [("pdf/input/b.tif", tiff_le ++ [x0b]);
            ("pdf/input/a.tif", tiff_le ++ [x0a])].

Definition ordered_argv : list string := ["tiff2pdf.py"; "job7"; "a.tif"; "b.tif"].

(** Two sources that differ by their extension only. *)
Definition twin_world : world :=
  world_of [("pdf/input/x.tif", tiff_le ++ [x01]);
            ("pdf/input/x.tiff", tiff_le ++ [x02])].

Definition twin_argv : list string := ["tiff2pdf.py"; "job7"; "x.tif"; "x.tiff"].

(** A directory whose only TIFF is named like the program. *)
Definition prog_world : world :=
  world_of [("pdf/input/conv.tif", tiff_le ++ [x09])].

Definition prog_argv : list string := ["conv.tif"; "job7"].

Definition stamp : string := "2022_03_04_05_06_07".

End Demo.

(** ** Observers used to state the properties *)

(** The TIFF signature of each byte order: 49 49 2A 00 and 4D 4D 00 2A. *)
Definition tiff_magic (endian : byteorder) : list byte :=
  match endian with
  | Little => [x49; x49; x2a; x00]
  | Big => [x4d; x4d; x00; x2a]
  end.

(** Number of bytes that the [read] calls recorded in a log returned. *)
Fixpoint bytes_read (evs : list event) : nat :=
  match evs with
  | [] => 0
  | EvRead _ got :: evs' => got + bytes_read evs'
  | _ :: evs' => bytes_read evs'
  end.

(** Number of [read] calls recorded in a log. *)
Fixpoint read_calls (evs : list event) : nat :=
  match evs with
  | [] => 0
  | EvRead _ _ :: evs' => S (read_calls evs')
  | _ :: evs' => read_calls evs'
  end.

(** The lines printed, in order. *)
Fixpoint printed (evs : list event) : list string :=
  match evs with
  | [] => []
  | EvPrint line :: evs' => line :: printed evs'
  | _ :: evs' => printed evs'
  end.

(** Sizes of the chunks that the successive reads of [read_chunks] return,
    and the text the loop appends to [hex_dump]. *)
Fixpoint chunk_sizes (fuel : nat) (rest : list byte) (n : Z) : list nat :=
  match fuel with
  | O => []
  | S fuel' =>
      match take 32 rest with
      | [] => [0]
      | chunk =>
          length chunk ::
          (if (n + 1 >? 10)%Z then [] else chunk_sizes fuel' (drop 32 rest) (n + 1))
      end
  end.

Fixpoint hex_tail (fuel : nat) (rest : list byte) (n : Z) : string :=
  match fuel with
  | O => ""
  | S fuel' =>
      match take 32 rest with
      | [] => ""
      | chunk =>
          PyBytes.str (PyBytes.hexlify chunk) +:+
          (if (n + 1 >? 10)%Z then "" else hex_tail fuel' (drop 32 rest) (n + 1))
      end
  end.

(** The diagnostic of [check_hex], the test it makes on the text gathered
    from a file, and the events of one call on an existing file. *)
Definition not_signed (file_path : string) : string :=
  "Error Code 2: File at " +:+ file_path +:+ " is not signed as TIFF.".

Definition signature_test (endian : byteorder) (content : list byte) : bool :=
  String.eqb (PyStr.slice_to 10 (hex_tail (S (length content)) content 0))
             (byte_sig endian).

Definition check_hex_events (path : string) (content : list byte) (ok : bool)
  : list event :=
  EvOpen path :: (EvRead path <$> chunk_sizes (S (length content)) content 0)
  ++ (if ok then [] else [EvPrint (not_signed path)]).

(** The three tests of the filter of [main], on the world in which the
    batch starts: the extension, the verdict of [check_hex], and the
    membership among the command-line arguments. *)
Definition is_tiff_name (file : string) : bool :=
  PyStr.endswith file ".tiff" || PyStr.endswith file ".tif".

Definition accepted `{Host} (w : world) (path : string) : bool :=
  match (check_hex path w).1 with
  | inr true => true
  | _ => false
  end.

Definition selected `{Host} (pat_files : list string) (w : world)
    (file : string) : bool :=
  is_tiff_name file && accepted w ("pdf/input/" +:+ file) &&
  PyStr.mem file pat_files.

(** No intermediate path of a listed TIFF name is itself a listed TIFF
    name: a conversion never overwrites a file that is still to be
    examined. *)
Definition no_clobber (listing : list string) : Prop :=
  ∀ f1 f2, f1 ∈ listing → f2 ∈ listing →
           is_tiff_name f1 = true → is_tiff_name f2 = true →
           pdf_path_of ("pdf/input/" +:+ f1) ≠ "pdf/input/" +:+ f2.

Definition no_clobberb (listing : list string) : bool :=
  forallb (λ f1,
    forallb (λ f2,
      negb (is_tiff_name f1 && is_tiff_name f2 &&
            String.eqb (pdf_path_of ("pdf/input/" +:+ f1)) ("pdf/input/" +:+ f2)))
      listing) listing.

(** The pages of a source file: its frames in on-disk order, each turned to
    RGB. *)
Definition pages_of `{Codec} (files : gmap string (list byte)) (path : string)
  : list page :=
  match files !! path with
  | Some content =>
      match image_frames content with
      | Some frames => convert_rgb <$> frames
      | None => []
      end
  | None => []
  end.

(** What is asked of the codec: a document saved under a [.pdf] name is
    read back by the merger as the pages that were saved. *)
Class CodecLaws `{Codec} : Prop := {
  saved_pages : ∀ path first rest out,
    PyStr.endswith path ".pdf" = true →
    image_save path first rest = Some out →
    pdf_pages out = Some (first :: rest)
}.

(** The intermediate path of a listed name. *)
Definition intermediate_of (file : string) : string :=
  pdf_path_of ("pdf/input/" +:+ file).

(** A computation that never ends the process. *)
Definition no_exit {A} (m : M A) : Prop :=
  ∀ w w', m w ≠ (inl SystemExit, w').

(** The files left once the given paths have been removed one by one. *)
Definition delete_all (paths : list string) (files : gmap string (list byte))
  : gmap string (list byte) :=
  foldl (λ m path, delete path m) files paths.

(** The file names the caller supplies: the arguments after the program
    name and the job identifier. *)
Definition caller_filenames (argv : list string) : list string := drop 2 argv.

(** The source paths that [Image.open] was called on, and the target paths
    that [Image.save] wrote to, as a log records them, in order. *)
Fixpoint images_opened (evs : list event) : list string :=
  match evs with
  | [] => []
  | EvImageOpen path :: evs' => path :: images_opened evs'
  | _ :: evs' => images_opened evs'
  end.

Fixpoint documents_saved (evs : list event) : list string :=
  match evs with
  | [] => []
  | EvSave path :: evs' => path :: documents_saved evs'
  | _ :: evs' => documents_saved evs'
  end.

(** The paths that [PdfFileMerger.write] was called on, as a log records
    them. *)
Fixpoint merger_writes (evs : list event) : list string :=
  match evs with
  | [] => []
  | EvWrite path :: evs' => path :: merger_writes evs'
  | _ :: evs' => merger_writes evs'
  end.

(** A computation that only adds to the log, and no call of
    [PdfFileMerger.write]. *)
Definition no_merger_write {A} (m : M A) : Prop :=
  ∀ w, ∃ evs, log (m w).2 = log w ++ evs ∧ merger_writes evs = [].

(** The name of the merged document is a plain file name: the document
    then lies in [pdf/output] itself. *)
Definition plain_output `{Host} (job now : string) : bool :=
  valid_name (outfile_name (pat_id_of job) now).

(** ** Further worlds on which the program is run *)

Module DemoMore.

(** A directory with one TIFF name on a signature alone, which is no
    image. *)
Definition frameless_world : world :=
  Demo.world_of [("pdf/input/void.tif", Demo.tiff_le);
                 ("pdf/output/old.pdf", [x01])].

Definition frameless_argv : list string := ["tiff2pdf.py"; "job7"; "void.tif"].

(** Three sources of one content: one whose name holds [.tif] before its
    extension [.tiff], one with the extension [.tif], and one with neither
    extension. *)
Definition suffix_world : world :=
  Demo.world_of [("pdf/input/a.tif.tiff", Demo.tiff_le ++ [x01; x02]);
                 ("pdf/input/b.tif", Demo.tiff_le ++ [x01; x02]);
                 ("pdf/input/c.png", Demo.tiff_le ++ [x01; x02])].



End DemoMore.

(** A computation that creates no file and alters none. *)
Definition only_deletes {A} (m : M A) : Prop :=
  ∀ w, fs (m w).2 ⊆ fs w.

(** The world in which the first loop of [main] starts. *)
Definition launched (w : world) : world :=
  World (fs w)
    ((log w ++ [EvPrint "~~~> Launching TIFF to PDF Converter."]) ++
     [EvListdir "pdf/input"]).

(** ** The earlier version of the script, [tiff2pdf_v1.py]

    Its three functions carry the names of the later ones; they are given
    here with the suffix [_v1].  The colour codes of [colorama.Fore] that it
    prints are taken from the environment. *)

Class Colorama : Type := {
  Fore_RED : string;
  Fore_CYAN : string;
  Fore_YELLOW : string;
  Fore_GREEN : string;
  Fore_RESET : string
}.

Definition check_hex_v1 `{Host} (file_path : string) : M bool :=
  let endian := sys_byteorder in
  let byte_sig := byte_sig endian in
  f ← open_rb file_path;
  hex_dump ← read_chunks (S (length (h_rest f))) f "" 0;
  if String.eqb (PyStr.slice_to 10 hex_dump) byte_sig then mret true
  else mret false.

Definition tiff_to_pdf_v1 `{Codec} `{Colorama} (tiff_path : string) : M string :=
  let pdf_path := pdf_path_of tiff_path in
  found ← os_path_exists tiff_path;
  (if negb found then
     print (Fore_RED +:+ "Exiting with Error Code 1:");;
     mthrow (Exception (tiff_path +:+ " does not find."))
   else mret tt);;
  image ← image_open tiff_path;
  let images := convert_rgb <$> image in
  (if (length images =? 1)%nat then
     match images with
     | first :: _ => save_pages pdf_path first []
     | [] => mthrow IndexError
     end
   else
     match images with
     | first :: rest => save_pages pdf_path first rest
     | [] => mthrow IndexError
     end);;
  mret pdf_path.

(** The first loop of the earlier [main]: no argument is consulted, and the
    path of an entry is [input_path + file]. *)
Fixpoint convert_loop_v1 `{Host} `{Codec} `{Colorama} (input_path : string)
    (listing : list string) (middle_file_names : list string)
  : M (list string) :=
  match listing with
  | [] => mret middle_file_names
  | file :: listing' =>
      if PyStr.endswith file ".tiff" || PyStr.endswith file ".tif" then
        signed ← check_hex_v1 (input_path +:+ file);
        if (signed : bool) then
          pdf ← tiff_to_pdf_v1 (input_path +:+ file);
          convert_loop_v1 input_path listing' (middle_file_names ++ [pdf])
        else convert_loop_v1 input_path listing' middle_file_names
      else convert_loop_v1 input_path listing' middle_file_names
  end.

(** "Delete middle files.": the removal comes before the message. *)
Fixpoint remove_middle_files_v1 `{Colorama} (middle_file_names : list string)
  : M unit :=
  match middle_file_names with
  | [] => mret tt
  | file :: rest =>
      os_remove file;;
      print (Fore_YELLOW +:+ "Removing " +:+ file +:+ ".");;
      remove_middle_files_v1 rest
  end.

Definition outfile_name_v1 (now : string) : string :=
  "tiff2pdf_output_" +:+ now +:+ ".pdf".

Definition main_v1 `{Host} `{Codec} `{Colorama} (now : string) : M unit :=
  print "~~~> Launching TIFF to PDF Converter.";;
  let input_path := "input/" in
  listing ← os_listdir input_path;
  middle_file_names ← convert_loop_v1 input_path listing [];
  merger ← append_all middle_file_names [];
  let out_path := "outputs/" in
  merger_write (out_path +:+ outfile_name_v1 now) merger;;
  print (Fore_CYAN +:+ outfile_name_v1 now +:+
         " created succesfully in original path.");;
  remove_middle_files_v1 middle_file_names;;
  print (Fore_GREEN +:+ "Exiting with Error Code 0:");;
  print (Fore_RESET +:+ "~~~> Closing TIFF to PDF Converter." +:+
         Fore_GREEN +:+ " Success!");;
  mthrow SystemExit.

(** The filter of the earlier [main], on the world in which it starts. *)
Definition selected_v1 `{Host} (input_path : string) (w : world)
    (file : string) : bool :=
  is_tiff_name file && accepted w (input_path +:+ file).

Definition no_clobber_v1 (input_path : string) (listing : list string) : bool :=
  forallb (λ f1,
    forallb (λ f2,
      negb (is_tiff_name f1 && is_tiff_name f2 &&
            String.eqb (pdf_path_of (input_path +:+ f1)) (input_path +:+ f2)))
      listing) listing.

(** The world in which the first loop of the earlier [main] starts. *)
Definition launched_v1 (w : world) : world :=
  World (fs w)
    ((log w ++ [EvPrint "~~~> Launching TIFF to PDF Converter."]) ++
     [EvListdir "input/"]).

(** A host, colours and a directory on which the earlier script is run:
    [os.listdir("input/")] lists the directory [input]. *)

Module DemoV1.

Fixpoint trim_slash (d : string) : string :=
  match d with
  | EmptyString => EmptyString
  | String c d' =>
      match d' with
      | EmptyString => if Ascii.eqb c "/" then EmptyString else String c EmptyString
      | String _ _ => String c (trim_slash d')
      end
  end.

#[export] Instance host : Host :=
  {| sys_byteorder := Little;
     listdir files d := Demo.listdir_keys files (trim_slash d);
     str_lower := PyStr.lower_ascii |}.

Definition escape (code : string) : string :=
  String (ascii_of_nat 27) ("[" +:+ code +:+ "m").

#[export] Instance colours : Colorama :=
  {| Fore_RED := escape "31";
     Fore_CYAN := escape "36";
     Fore_YELLOW := escape "33";
     Fore_GREEN := escape "32";
     Fore_RESET := escape "39" |}.

Definition batch_world : world :=
  Demo.world_of [("input/b.tif", Demo.tiff_le ++ [x0b; x0c]);
                 ("input/a.tiff", Demo.tiff_le ++ [x0a]);
                 ("input/y.tif", [x00; x01; x02; x03; x04]);
                 ("input/z.txt", [x68; x69])].

End DemoV1.

(** * Properties *)

Example startswith_ex : PyStr.startswith "x.tiff" "x.t" = true.
Proof. reflexivity. Qed.

Example endswith_ex :
  PyStr.endswith "scan.tiff" ".tiff" = true ∧
  PyStr.endswith "scan.tiff" ".tif" = false ∧
  PyStr.endswith "scan.tif" ".tif" = true.
Proof. repeat split. Qed.

Example contains_ex :
  PyStr.contains ".tif" "a.tiff.d" = true ∧ PyStr.contains ".tiff" "a.tif" = false.
Proof. repeat split. Qed.

Example replace_ex :
  PyStr.replace ".tif" ".pdf" "a.tif.b.tiff" = "a.pdf.b.pdff" ∧
  PyStr.replace "," "_" "doe,john,7" = "doe_john_7" ∧
  PyStr.replace "aa" "b" "aaaaa" = "bba" ∧
  PyStr.replace "" "-" "ab" = "-a-b-".
Proof. repeat split. Qed.

Example lower_ex : PyStr.lower_ascii "Doe,John_7.TIF" = "doe,john_7.tif".
Proof. reflexivity. Qed.

Example hexlify_ex :
  PyBytes.str (PyBytes.hexlify [x49; x49; x2a; x00]) = "b'49492a00'".
Proof. reflexivity. Qed.

(** ** The monad *)

Ltac munfold :=
  unfold print in *;
  unfold mbind, M_bind, mret, M_ret, mthrow, M_throw, emit in *.

Lemma bind_inr {A B} (m : M A) (k : A → M B) w a w' :
  m w = (inr a, w') → (m ≫= k) w = k a w'.
Proof. unfold mbind, M_bind. by intros ->. Qed.

Lemma bind_inl {A B} (m : M A) (k : A → M B) w e w' :
  m w = (inl e, w') → (m ≫= k) w = (inl e, w').
Proof. unfold mbind, M_bind. by intros ->. Qed.

Lemma string_app_assoc (a b c : string) : (a +:+ b) +:+ c = a +:+ (b +:+ c).
Proof.
  induction a as [|x a IH]; [done|].
  change (String x ((a +:+ b) +:+ c) = String x (a +:+ b +:+ c)). by rewrite IH.
Qed.

Lemma string_app_nil_r (a : string) : a +:+ "" = a.
Proof.
  induction a as [|x a IH]; [done|].
  change (String x (a +:+ "") = String x a). by rewrite IH.
Qed.

Lemma string_length_app a b :
  String.length (a +:+ b) = String.length a + String.length b.
Proof.
  induction a as [|c a IH]; [done|].
  change (String c a +:+ b) with (String c (a +:+ b)). cbn. by rewrite IH.
Qed.

(** ** [check_hex]: the reading loop *)

Lemma read_chunks_run path fuel : ∀ rest hex_dump n w,
  read_chunks fuel (Handle path rest) hex_dump n w =
  (inr (hex_dump +:+ hex_tail fuel rest n),
   World (fs w) (log w ++ (EvRead path <$> chunk_sizes fuel rest n))).
Proof.
  induction fuel as [|fuel IH]; intros rest hex_dump n w.
  - cbn. rewrite string_app_nil_r, app_nil_r. by destruct w.
  - cbn [read_chunks chunk_sizes hex_tail].
    unfold f_read. cbn [h_rest h_path]. munfold. cbn [fs log].
    destruct (take 32 rest) as [|b chunk] eqn:Hc.
    + cbn. by rewrite string_app_nil_r.
    + destruct (n + 1 >? 10)%Z.
      * cbn [length fmap list_fmap]. by rewrite string_app_nil_r.
      * rewrite IH. cbn [fs log length fmap list_fmap].
        rewrite string_app_assoc, <- app_assoc. done.
Qed.

Lemma length_take_min {A} (l : list A) k :
  length (take k l) = Nat.min k (length l).
Proof. apply length_take. Qed.

Lemma sum_list_cons k ks : sum_list (k :: ks) = k + sum_list ks.
Proof. done. Qed.

Lemma chunk_sizes_length fuel : ∀ rest n,
  (0 ≤ n ≤ 10)%Z → length (chunk_sizes fuel rest n) ≤ Z.to_nat (11 - n).
Proof.
  induction fuel as [|fuel IH]; intros rest n Hn; cbn [chunk_sizes].
  - cbn. lia.
  - destruct (take 32 rest) as [|b chunk]; [cbn; lia|].
    destruct (Z.gtb_spec (n + 1) 10) as [Hgt|Hgt]; cbn [length]; [lia|].
    specialize (IH (drop 32 rest) (n + 1)%Z). lia.
Qed.

Lemma chunk_sizes_bound fuel : ∀ rest n,
  Forall (λ k, k ≤ 32) (chunk_sizes fuel rest n).
Proof.
  induction fuel as [|fuel IH]; intros rest n; cbn [chunk_sizes]; [constructor|].
  pose proof (length_take_min rest 32) as Hle.
  destruct (take 32 rest) as [|b chunk].
  - constructor; [lia | constructor].
  - constructor; [lia|]. destruct (n + 1 >? 10)%Z; [constructor | apply IH].
Qed.

Lemma chunk_sizes_sum fuel : ∀ rest n,
  (0 ≤ n ≤ 10)%Z → length rest < fuel →
  sum_list (chunk_sizes fuel rest n) = length rest `min` (32 * Z.to_nat (11 - n)).
Proof.
  induction fuel as [|fuel IH]; intros rest n Hn Hfuel; [lia|].
  cbn [chunk_sizes].
  pose proof (length_take_min rest 32) as Htake.
  pose proof (length_drop rest 32) as Hdrop.
  destruct (take 32 rest) as [|b chunk].
  - cbn [length] in Htake. rewrite sum_list_cons. cbn. lia.
  - cbn [length] in Htake. rewrite sum_list_cons.
    destruct (Z.gtb_spec (n + 1) 10) as [Hgt|Hgt]; cbn [length].
    + cbn. lia.
    + rewrite IH by lia. lia.
Qed.

(** More fuel than bytes left is always enough: the result of the loop
    does not depend on it. *)
Lemma chunk_sizes_fuel fuel1 : ∀ fuel2 rest n,
  length rest < fuel1 → length rest < fuel2 →
  chunk_sizes fuel1 rest n = chunk_sizes fuel2 rest n ∧
  hex_tail fuel1 rest n = hex_tail fuel2 rest n.
Proof.
  induction fuel1 as [|fuel1 IH]; intros [|fuel2] rest n H1 H2; try lia.
  cbn [chunk_sizes hex_tail].
  pose proof (length_take_min rest 32) as Htake.
  pose proof (length_drop rest 32) as Hdrop.
  destruct (take 32 rest) as [|b chunk]; [done|].
  cbn [length] in Htake.
  destruct (n + 1 >? 10)%Z; [done|].
  destruct (IH fuel2 (drop 32 rest) (n + 1)%Z) as [-> ->]; [lia..|done].
Qed.

Lemma read_chunks_enough_fuel path rest hex_dump n w fuel1 fuel2 :
  length rest < fuel1 → length rest < fuel2 →
  read_chunks fuel1 (Handle path rest) hex_dump n w =
  read_chunks fuel2 (Handle path rest) hex_dump n w.
Proof.
  intros H1 H2. rewrite !read_chunks_run.
  by destruct (chunk_sizes_fuel fuel1 fuel2 rest n H1 H2) as [-> ->].
Qed.

Lemma bytes_read_reads path sizes :
  bytes_read (EvRead path <$> sizes) = sum_list sizes.
Proof. induction sizes as [|k sizes IH]; cbn; [done|]. by rewrite IH. Qed.

Lemma read_calls_reads path sizes :
  read_calls (EvRead path <$> sizes) = length sizes.
Proof. induction sizes as [|k sizes IH]; cbn; [done|]. by rewrite IH. Qed.

Lemma printed_reads path sizes : printed (EvRead path <$> sizes) = [].
Proof. induction sizes as [|k sizes IH]; cbn; done. Qed.

Lemma bytes_read_app evs1 evs2 :
  bytes_read (evs1 ++ evs2) = bytes_read evs1 + bytes_read evs2.
Proof.
  induction evs1 as [|e evs1 IH]; [done|].
  destruct e; cbn; rewrite ?IH; lia.
Qed.

Lemma read_calls_app evs1 evs2 :
  read_calls (evs1 ++ evs2) = read_calls evs1 + read_calls evs2.
Proof.
  induction evs1 as [|e evs1 IH]; [done|].
  destruct e; cbn; rewrite ?IH; lia.
Qed.

Lemma printed_app evs1 evs2 : printed (evs1 ++ evs2) = printed evs1 ++ printed evs2.
Proof.
  induction evs1 as [|e evs1 IH]; [done|].
  destruct e; cbn; by rewrite ?IH.
Qed.

(** ** [check_hex]: what one call does *)

Lemma check_hex_run `{Host} path content w :
  fs w !! path = Some content →
  check_hex path w =
  (inr (signature_test sys_byteorder content),
   World (fs w)
     (log w ++ check_hex_events path content (signature_test sys_byteorder content))).
Proof.
  intros Hfile. unfold check_hex, check_hex_events, signature_test.
  erewrite bind_inr; [|unfold open_rb; by rewrite Hfile].
  cbn [h_rest]. erewrite bind_inr; [|apply read_chunks_run].
  cbn [fs log]. change ("" +:+ ?t) with t.
  destruct (String.eqb _ _); munfold; cbn [fs log];
    rewrite <- ?app_assoc, ?app_nil_r; done.
Qed.

Lemma check_hex_missing `{Host} path w :
  fs w !! path = None → check_hex path w = (inl (FileNotFoundError path), w).
Proof.
  intros Hfile. unfold check_hex.
  erewrite bind_inl; [done|]. unfold open_rb. by rewrite Hfile.
Qed.

(** ** The signature test reads the first four bytes *)

Lemma unhex_hex b : PyBytes.unhex (PyBytes.hex_hi b) (PyBytes.hex_lo b) = b.
Proof. by destruct b. Qed.

Lemma hex_digits_inj b hi lo :
  PyBytes.hex_hi b = hi → PyBytes.hex_lo b = lo → b = PyBytes.unhex hi lo.
Proof. intros <- <-. by rewrite unhex_hex. Qed.

Lemma hex_tail_cons fuel b rest n :
  hex_tail (S fuel) (b :: rest) n =
  PyBytes.str (PyBytes.hexlify (b :: take 31 rest)) +:+
  (if (n + 1 >? 10)%Z then "" else hex_tail fuel (drop 32 (b :: rest)) (n + 1)).
Proof. done. Qed.

Lemma slice_signature h1 l1 h2 l2 h3 l3 h4 l4 t1 t2 :
  PyStr.slice_to 10
    (PyBytes.str
       (String h1 (String l1 (String h2 (String l2
          (String h3 (String l3 (String h4 (String l4 t1)))))))) +:+ t2) =
  String "b" (String "'" (String h1 (String l1 (String h2 (String l2
    (String h3 (String l3 (String h4 (String l4 ""))))))))).
Proof. done. Qed.

Lemma signature_test_spec endian content :
  signature_test endian content = true ↔ take 4 content = tiff_magic endian.
Proof.
  unfold signature_test. rewrite String.eqb_eq.
  destruct content as [|b1 [|b2 [|b3 [|b4 rest]]]].
  1-4: cbv -[PyBytes.hex_hi PyBytes.hex_lo];
       destruct endian; split; intros Heq; discriminate.
  rewrite hex_tail_cons.
  change (take 31 (b2 :: b3 :: b4 :: rest)) with (b2 :: b3 :: b4 :: take 28 rest).
  cbn [PyBytes.hexlify]. rewrite slice_signature.
  change (take 4 (b1 :: b2 :: b3 :: b4 :: rest)) with [b1; b2; b3; b4].
  destruct endian; cbn [byte_sig tiff_magic]; split.
  - intros [= H1 L1 H2 L2 H3 L3 H4 L4].
    rewrite (hex_digits_inj _ _ _ H1 L1), (hex_digits_inj _ _ _ H2 L2),
      (hex_digits_inj _ _ _ H3 L3), (hex_digits_inj _ _ _ H4 L4). done.
  - by intros [= -> -> -> ->].
  - intros [= H1 L1 H2 L2 H3 L3 H4 L4].
    rewrite (hex_digits_inj _ _ _ H1 L1), (hex_digits_inj _ _ _ H2 L2),
      (hex_digits_inj _ _ _ H3 L3), (hex_digits_inj _ _ _ H4 L4). done.
  - by intros [= -> -> -> ->].
Qed.

Lemma world_eta w : World (fs w) (log w ++ []) = w.
Proof. destruct w. cbn. by rewrite app_nil_r. Qed.

(** C1. On a file that can be opened, [check_hex] returns without raising,
    and it returns [True] exactly when the first four bytes of the file are
    the TIFF signature of the host's byte order (49 49 2A 00 on a
    little-endian host, 4D 4D 00 2A on a big-endian one).  Any other leading
    bytes give [False]; so does a file of fewer than four bytes, the empty
    file included. *)
Theorem check_hex_accepts_exactly_the_signature `{Host} path content w :
  fs w !! path = Some content →
  ∃ accepted evs,
    check_hex path w = (inr accepted, World (fs w) (log w ++ evs)) ∧
    (accepted = true ↔ take 4 content = tiff_magic sys_byteorder) ∧
    (length content < 4 → accepted = false) ∧
    (content = [] → accepted = false).
Proof.
  intros Hfile. eexists _, _. split; [by apply check_hex_run|].
  pose proof (signature_test_spec sys_byteorder content) as Hspec.
  assert (length content < 4 → signature_test sys_byteorder content = false)
    as Hshort.
  { intros Hlen. destruct (signature_test _ _); [|done].
    destruct Hspec as [Hspec _]. specialize (Hspec eq_refl).
    apply (f_equal length) in Hspec. rewrite length_take_min in Hspec.
    destruct sys_byteorder; cbn [tiff_magic length] in Hspec; lia. }
  split; [done|]. split; [done|].
  intros ->. apply Hshort. cbn. lia.
Qed.

Lemma check_hex_accepts_exactly_the_signature_witness :
  fs (Demo.world_of [("pdf/input/a.tif", Demo.tiff_le ++ [x07])])
    !! "pdf/input/a.tif" = Some (Demo.tiff_le ++ [x07]) ∧
  ∃ accepted evs,
    check_hex (H := Demo.little_host) "pdf/input/a.tif"
      (Demo.world_of [("pdf/input/a.tif", Demo.tiff_le ++ [x07])]) =
    (inr accepted,
     World (fs (Demo.world_of [("pdf/input/a.tif", Demo.tiff_le ++ [x07])]))
       (log (Demo.world_of [("pdf/input/a.tif", Demo.tiff_le ++ [x07])]) ++ evs)) ∧
    (accepted = true ↔ take 4 (Demo.tiff_le ++ [x07]) = tiff_magic Little) ∧
    (length (Demo.tiff_le ++ [x07]) < 4 → accepted = false) ∧
    (Demo.tiff_le ++ [x07] = [] → accepted = false).
Proof.
  split; [reflexivity|].
  apply (check_hex_accepts_exactly_the_signature (H := Demo.little_host)
           "pdf/input/a.tif" (Demo.tiff_le ++ [x07])).
  reflexivity.
Defined.

(** C8. One call of [check_hex] issues at most 11 reads, each of at most 32
    bytes, hence takes at most 352 bytes from the file; on a shorter file it
    stops when the file is exhausted, having read all of it. *)
Theorem check_hex_reads_at_most_352_bytes `{Host} path w :
  ∃ r evs,
    check_hex path w = (r, World (fs w) (log w ++ evs)) ∧
    read_calls evs ≤ 11 ∧
    bytes_read evs ≤ 352 ∧
    Forall (λ e, ∀ p got, e = EvRead p got → got ≤ 32) evs ∧
    ∀ content, fs w !! path = Some content →
               bytes_read evs = length content `min` 352.
Proof.
  destruct (fs w !! path) as [content|] eqn:Hfile.
  - eexists _, _. split; [by apply check_hex_run|].
    unfold check_hex_events.
    set (sizes := chunk_sizes (S (length content)) content 0).
    assert (length sizes ≤ 11) as Hcalls.
    { unfold sizes. etrans; [apply chunk_sizes_length; lia|]. cbn. lia. }
    assert (sum_list sizes = length content `min` 352) as Hsum.
    { unfold sizes. rewrite chunk_sizes_sum by lia. done. }
    assert (Forall (λ k, k ≤ 32) sizes) as Hbound by apply chunk_sizes_bound.
    clearbody sizes.
    assert (bytes_read (EvOpen path :: (EvRead path <$> sizes) ++
              (if signature_test sys_byteorder content then []
               else [EvPrint (not_signed path)])) = sum_list sizes) as Hbytes.
    { cbn [bytes_read]. rewrite bytes_read_app, bytes_read_reads.
      destruct (signature_test _ _); cbn; lia. }
    split; [|split; [|split]].
    + cbn [read_calls]. rewrite read_calls_app, read_calls_reads.
      destruct (signature_test _ _); cbn [read_calls]; lia.
    + rewrite Hbytes, Hsum. lia.
    + constructor; [done|]. apply Forall_app. split.
      * apply Forall_fmap. eapply Forall_impl; [exact Hbound|].
        intros k Hk p got [= _ <-]. done.
      * destruct (signature_test _ _); repeat constructor; done.
    + intros content' [= <-]. by rewrite Hbytes.
  - exists (inl (FileNotFoundError path)), [].
    rewrite world_eta. split; [by apply check_hex_missing|].
    cbn. repeat split; try lia; [constructor|done].
Qed.

(** C6, as the code has it.  [check_hex] handles no error.  On a path that
    names an existing file it returns a boolean without raising, and prints
    its diagnostic exactly when that boolean is [False]; on a path that names
    no file, the [FileNotFoundError] of [open] reaches the caller, and
    nothing is printed. *)
Theorem check_hex_raises_only_when_open_fails `{Host} path w :
  match fs w !! path with
  | Some content =>
      ∃ accepted evs,
        check_hex path w = (inr accepted, World (fs w) (log w ++ evs)) ∧
        printed evs = (if accepted then [] else [not_signed path])
  | None => check_hex path w = (inl (FileNotFoundError path), w)
  end.
Proof.
  destruct (fs w !! path) as [content|] eqn:Hfile.
  - eexists _, _. split; [by apply check_hex_run|].
    unfold check_hex_events. cbn [printed].
    rewrite printed_app, printed_reads.
    by destruct (signature_test _ _).
  - by apply check_hex_missing.
Qed.

(** C6 as stated fails: on a path that names no file, [check_hex] raises
    instead of returning [False], and reports nothing. *)
Lemma check_hex_missing_file_raises :
  ¬ (∃ w', check_hex (H := Demo.little_host) "pdf/input/ghost.tif"
             (Demo.world_of []) = (inr false, w')) ∧
  check_hex (H := Demo.little_host) "pdf/input/ghost.tif" (Demo.world_of []) =
    (inl (FileNotFoundError "pdf/input/ghost.tif"), Demo.world_of []) ∧
  printed (log (check_hex (H := Demo.little_host) "pdf/input/ghost.tif"
                  (Demo.world_of [])).2) = [].
Proof.
  split; [|split; reflexivity].
  intros [w' Hrun]. discriminate Hrun.
Qed.

(** ** Strings: suffixes, occurrences and replacement *)

Lemma startswith_refl s : PyStr.startswith s s = true.
Proof.
  induction s as [|c s IH]; [done|]. cbn. by rewrite Ascii.eqb_refl, IH.
Qed.

Lemma startswith_app s t : PyStr.startswith (s +:+ t) s = true.
Proof.
  induction s as [|c s IH]; [done|].
  change (String c s +:+ t) with (String c (s +:+ t)).
  cbn. by rewrite Ascii.eqb_refl, IH.
Qed.

Lemma endswith_app stem suf : PyStr.endswith (stem +:+ suf) suf = true.
Proof.
  induction stem as [|c stem IH].
  - change ("" +:+ suf) with suf.
    destruct suf; cbn [PyStr.endswith]; by rewrite String.eqb_refl.
  - change (String c stem +:+ suf) with (String c (stem +:+ suf)).
    cbn [PyStr.endswith]. rewrite IH. apply orb_true_r.
Qed.

Lemma endswith_inv s suf :
  PyStr.endswith s suf = true → ∃ stem, s = stem +:+ suf.
Proof.
  induction s as [|c s IH]; cbn [PyStr.endswith]; intros Hs.
  - rewrite orb_false_r in Hs. apply String.eqb_eq in Hs as <-. by exists "".
  - apply orb_true_iff in Hs as [Hs|Hs].
    + apply String.eqb_eq in Hs as <-. by exists "".
    + destruct (IH Hs) as [stem ->]. by exists (String c stem).
Qed.

Lemma contains_app_r sub s : PyStr.contains sub (s +:+ sub) = true.
Proof.
  induction s as [|c s IH].
  - change ("" +:+ sub) with sub. destruct sub; cbn; [done|].
    by rewrite Ascii.eqb_refl, startswith_refl.
  - change (String c s +:+ sub) with (String c (s +:+ sub)).
    cbn [PyStr.contains]. rewrite IH. apply orb_true_r.
Qed.

(** Case analysis on the comparisons of a character of the text with a
    character of the pattern. *)
Ltac ascii_cases :=
  repeat (match goal with
          | |- context [Ascii.eqb ?a ?b] =>
              is_var b; destruct (Ascii.eqb a b)
          | |- context [Ascii.eqb ?a ?b] =>
              let v := eval vm_compute in (Ascii.eqb a b) in
              change (Ascii.eqb a b) with v
          end; cbv beta iota; try done).

(** An occurrence of [.tif] or [.tiff] that starts inside [s] and not at its
    end lies within [s] at least up to [.tif]: the separator cannot be one
    of the letters of the pattern. *)
Lemma startswith_tif_stem (pat suf s : string) :
  (pat = ".tif" ∨ pat = ".tiff") → (suf = ".tif" ∨ suf = ".tiff") →
  s ≠ "" →
  PyStr.startswith (s +:+ suf) pat = true → PyStr.startswith s ".tif" = true.
Proof.
  intros Hpat Hsuf Hs.
  destruct s as [|c1 [|c2 [|c3 [|c4 [|c5 s]]]]]; [done|..];
    destruct Hpat as [-> | ->], Hsuf as [-> | ->];
    cbv -[Ascii.eqb]; ascii_cases.
Qed.

Lemma contains_tiff_stem stem :
  PyStr.contains ".tif" stem = false →
  PyStr.contains ".tiff" (stem +:+ ".tif") = false.
Proof.
  induction stem as [|c stem IH]; [done|].
  change (String c stem +:+ ".tif") with (String c (stem +:+ ".tif")).
  cbn [PyStr.contains]. intros Hstem.
  apply orb_false_iff in Hstem as [Hhead Htail].
  rewrite (IH Htail), orb_false_r.
  destruct (PyStr.startswith (String c (stem +:+ ".tif")) ".tiff") eqn:Hocc; [|done].
  apply (startswith_tif_stem ".tiff" ".tif" (String c stem)) in Hocc; [|auto..].
  congruence.
Qed.

Lemma replace_from_stem (pat suf stem : string) :
  (pat = ".tif" ∨ pat = ".tiff") → (suf = ".tif" ∨ suf = ".tiff") →
  PyStr.contains ".tif" stem = false →
  PyStr.replace_from pat ".pdf" 0 (stem +:+ suf) =
  stem +:+ PyStr.replace_from pat ".pdf" 0 suf.
Proof.
  intros Hpat Hsuf. induction stem as [|c stem IH]; [done|].
  change (String c stem +:+ ?t) with (String c (stem +:+ t)).
  cbn [PyStr.contains]. intros Hstem.
  apply orb_false_iff in Hstem as [Hhead Htail].
  cbn [PyStr.replace_from].
  destruct (PyStr.startswith (String c (stem +:+ suf)) pat) eqn:Hocc.
  - apply (startswith_tif_stem pat suf (String c stem)) in Hocc; [|done..].
    congruence.
  - by rewrite IH.
Qed.

Lemma pdf_path_of_tiff stem :
  PyStr.contains ".tif" stem = false →
  pdf_path_of (stem +:+ ".tiff") = stem +:+ ".pdf".
Proof.
  intros Hstem. unfold pdf_path_of. rewrite contains_app_r.
  unfold PyStr.replace. by rewrite (replace_from_stem ".tiff" ".tiff") by auto.
Qed.

Lemma pdf_path_of_tif stem :
  PyStr.contains ".tif" stem = false →
  pdf_path_of (stem +:+ ".tif") = stem +:+ ".pdf".
Proof.
  intros Hstem. unfold pdf_path_of. rewrite contains_tiff_stem by done.
  unfold PyStr.replace. by rewrite (replace_from_stem ".tif" ".tif") by auto.
Qed.

Lemma replace_from_absent old new s :
  PyStr.contains old s = false → PyStr.replace_from old new 0 s = s.
Proof.
  induction s as [|c s IH]; [done|]. cbn [PyStr.contains PyStr.replace_from].
  intros Hs. apply orb_false_iff in Hs as [-> Htail]. by rewrite IH.
Qed.

Lemma contains_tiff_tif s :
  PyStr.contains ".tif" s = false → PyStr.contains ".tiff" s = false.
Proof.
  induction s as [|c s IH]; [done|]. cbn [PyStr.contains]. intros Hs.
  apply orb_false_iff in Hs as [Hhead Htail]. rewrite (IH Htail), orb_false_r.
  revert Hhead.
  destruct s as [|c2 [|c3 [|c4 [|c5 s]]]];
    cbv -[Ascii.eqb]; ascii_cases.
Qed.

Lemma pdf_path_of_other path :
  PyStr.contains ".tif" path = false → pdf_path_of path = path.
Proof.
  intros Hpath. unfold pdf_path_of. rewrite contains_tiff_tif by done.
  unfold PyStr.replace. by apply replace_from_absent.
Qed.

(** ** [tiff_to_pdf]: what one call does *)

Lemma tiff_to_pdf_run `{Codec} path w :
  tiff_to_pdf path w =
  match fs w !! path with
  | None =>
      (inl (Exception (path +:+ " does not find.")),
       World (fs w)
         (log w ++ [EvExists path; EvPrint "Exiting with Error Code 1:"]))
  | Some content =>
      match image_frames content with
      | None =>
          (inl (UnidentifiedImageError path),
           World (fs w) (log w ++ [EvExists path; EvImageOpen path]))
      | Some [] =>
          (inl IndexError,
           World (fs w) (log w ++ [EvExists path; EvImageOpen path]))
      | Some (first :: rest) =>
          match image_save (pdf_path_of path) (convert_rgb first)
                  (convert_rgb <$> rest) with
          | None =>
              (inl (ValueError (pdf_path_of path)),
               World (fs w) (log w ++ [EvExists path; EvImageOpen path]))
          | Some out =>
              (inr (pdf_path_of path),
               World (<[pdf_path_of path := out]> (fs w))
                 (log w ++ [EvExists path; EvImageOpen path;
                            EvSave (pdf_path_of path);
                            EvPrint (pdf_path_of path +:+ " created")]))
          end
      end
  end.
Proof.
  unfold tiff_to_pdf, os_path_exists, image_open, file_content, save_pages,
    write_file.
  munfold. cbn [fs log].
  destruct (fs w !! path) as [content|] eqn:Hfile.
  - rewrite bool_decide_eq_true_2 by eauto. cbn [negb fs log]. rewrite Hfile.
    destruct (image_frames content) as [[|first rest]|];
      cbn [fmap list_fmap length Nat.eqb fs log];
      rewrite <- ?app_assoc; try done.
    destruct rest as [|second rest]; cbn [fmap list_fmap length Nat.eqb];
      munfold; destruct (image_save _ _ _); cbn [fs log];
      rewrite <- ?app_assoc; done.
  - rewrite bool_decide_eq_false_2 by (intros [? ?]; done).
    cbn [negb fs log]. by rewrite <- ?app_assoc.
Qed.

(** An occurrence of [.tiff] that starts inside [s +:+ ".tiff"] before its
    last five characters lies within [s]. *)
Lemma startswith_tiff_stem (s : string) :
  s ≠ "" →
  PyStr.startswith (s +:+ ".tiff") ".tiff" = true →
  PyStr.startswith s ".tiff" = true.
Proof.
  intros Hs.
  destruct s as [|c1 [|c2 [|c3 [|c4 [|c5 s]]]]]; [done|..];
    cbv -[Ascii.eqb]; ascii_cases.
Qed.

Lemma replace_from_tiff_stem stem :
  PyStr.contains ".tiff" stem = false →
  PyStr.replace_from ".tiff" ".pdf" 0 (stem +:+ ".tiff") = stem +:+ ".pdf".
Proof.
  induction stem as [|c stem IH]; [done|].
  change (String c stem +:+ ?t) with (String c (stem +:+ t)).
  cbn [PyStr.contains]. intros Hstem.
  apply orb_false_iff in Hstem as [Hhead Htail].
  cbn [PyStr.replace_from].
  destruct (PyStr.startswith (String c (stem +:+ ".tiff")) ".tiff") eqn:Hocc.
  - apply (startswith_tiff_stem (String c stem)) in Hocc; [|done]. congruence.
  - by rewrite IH.
Qed.

(** A trailing [.tiff] is the one replaced as soon as [.tiff] does not occur
    before it, whether or not [.tif] does. *)
Lemma pdf_path_of_trailing_tiff stem :
  PyStr.contains ".tiff" stem = false →
  pdf_path_of (stem +:+ ".tiff") = stem +:+ ".pdf".
Proof.
  intros Hstem. unfold pdf_path_of. rewrite contains_app_r.
  unfold PyStr.replace. by apply replace_from_tiff_stem.
Qed.

(** C3, as the code has it.  The intermediate path is obtained by textual
    replacement, and it is the path the document is saved at and the path
    returned.  For a source [stem.tiff] in which [.tiff] does not occur
    before the extension, and for a source [stem.tif] in which [.tif] does
    not occur before the extension, that path is [stem.pdf].  There is no
    suffix validation and no [InvalidPathError]: on a path in which [.tif]
    does not occur the conversion goes on in the same way, saves the
    document over the source and returns the source path. *)
Theorem tiff_to_pdf_derives_path_by_replacement `{Codec} w content first rest :
  image_frames content = Some (first :: rest) →
  (∀ stem out,
     PyStr.contains ".tiff" stem = false →
     fs w !! (stem +:+ ".tiff") = Some content →
     image_save (stem +:+ ".pdf") (convert_rgb first) (convert_rgb <$> rest) =
       Some out →
     tiff_to_pdf (stem +:+ ".tiff") w =
     (inr (stem +:+ ".pdf"),
      World (<[stem +:+ ".pdf" := out]> (fs w))
        (log w ++ [EvExists (stem +:+ ".tiff"); EvImageOpen (stem +:+ ".tiff");
                   EvSave (stem +:+ ".pdf");
                   EvPrint ((stem +:+ ".pdf") +:+ " created")]))) ∧
  (∀ stem out,
     PyStr.contains ".tif" stem = false →
     fs w !! (stem +:+ ".tif") = Some content →
     image_save (stem +:+ ".pdf") (convert_rgb first) (convert_rgb <$> rest) =
       Some out →
     tiff_to_pdf (stem +:+ ".tif") w =
     (inr (stem +:+ ".pdf"),
      World (<[stem +:+ ".pdf" := out]> (fs w))
        (log w ++ [EvExists (stem +:+ ".tif"); EvImageOpen (stem +:+ ".tif");
                   EvSave (stem +:+ ".pdf");
                   EvPrint ((stem +:+ ".pdf") +:+ " created")]))) ∧
  (∀ path out,
     PyStr.contains ".tif" path = false →
     fs w !! path = Some content →
     image_save path (convert_rgb first) (convert_rgb <$> rest) = Some out →
     tiff_to_pdf path w =
     (inr path,
      World (<[path := out]> (fs w))
        (log w ++ [EvExists path; EvImageOpen path; EvSave path;
                   EvPrint (path +:+ " created")]))).
Proof.
  intros Hframes. split; [|split].
  - intros stem out Hstem Hfile Hsave.
    rewrite tiff_to_pdf_run, Hfile, Hframes, pdf_path_of_trailing_tiff by done.
    by rewrite Hsave.
  - intros stem out Hstem Hfile Hsave.
    rewrite tiff_to_pdf_run, Hfile, Hframes, pdf_path_of_tif by done.
    by rewrite Hsave.
  - intros path out Hpath Hfile Hsave.
    rewrite tiff_to_pdf_run, Hfile, Hframes, pdf_path_of_other by done.
    by rewrite Hsave.
Qed.

Lemma tiff_to_pdf_derives_path_by_replacement_witness :
  image_frames (Codec := Demo.byte_codec) (Demo.tiff_le ++ [x01; x02]) =
    Some [x01; x02] ∧
  tiff_to_pdf (H := Demo.byte_codec) "pdf/input/a.tif.tiff" DemoMore.suffix_world =
    (inr "pdf/input/a.tif.pdf",
     World (<["pdf/input/a.tif.pdf" := Demo.pdf_magic ++ [x01; x02]]>
              (fs DemoMore.suffix_world))
       (log DemoMore.suffix_world ++
        [EvExists "pdf/input/a.tif.tiff"; EvImageOpen "pdf/input/a.tif.tiff";
         EvSave "pdf/input/a.tif.pdf";
         EvPrint "pdf/input/a.tif.pdf created"])) ∧
  tiff_to_pdf (H := Demo.byte_codec) "pdf/input/b.tif" DemoMore.suffix_world =
    (inr "pdf/input/b.pdf",
     World (<["pdf/input/b.pdf" := Demo.pdf_magic ++ [x01; x02]]>
              (fs DemoMore.suffix_world))
       (log DemoMore.suffix_world ++
        [EvExists "pdf/input/b.tif"; EvImageOpen "pdf/input/b.tif";
         EvSave "pdf/input/b.pdf"; EvPrint "pdf/input/b.pdf created"])) ∧
  tiff_to_pdf (H := Demo.byte_codec) "pdf/input/c.png" DemoMore.suffix_world =
    (inr "pdf/input/c.png",
     World (<["pdf/input/c.png" := Demo.png_magic ++ [x01]]>
              (fs DemoMore.suffix_world))
       (log DemoMore.suffix_world ++
        [EvExists "pdf/input/c.png"; EvImageOpen "pdf/input/c.png";
         EvSave "pdf/input/c.png"; EvPrint "pdf/input/c.png created"])).
Proof.
  destruct (tiff_to_pdf_derives_path_by_replacement (H := Demo.byte_codec)
              DemoMore.suffix_world (Demo.tiff_le ++ [x01; x02]) x01 [x02]
              eq_refl) as (Htiff & Htif & Hother).
  split; [reflexivity|]. split; [|split].
  - exact (Htiff "pdf/input/a.tif" (Demo.pdf_magic ++ [x01; x02])
             eq_refl eq_refl eq_refl).
  - exact (Htif "pdf/input/b" (Demo.pdf_magic ++ [x01; x02])
             eq_refl eq_refl eq_refl).
  - exact (Hother "pdf/input/c.png" (Demo.png_magic ++ [x01])
             eq_refl eq_refl eq_refl).
Defined.

(** C3 as stated fails twice.  A path that ends in [.tif] and holds [.tiff]
    earlier has that earlier occurrence replaced, not its suffix; and on a
    path that ends in neither suffix the converter raises nothing: it
    returns the source path itself. *)
Lemma tiff_to_pdf_path_not_by_suffix :
  (PyStr.endswith "pdf/input/a.tiff.tif" ".tiff" = false ∧
   PyStr.endswith "pdf/input/a.tiff.tif" ".tif" = true ∧
   pdf_path_of "pdf/input/a.tiff.tif" = "pdf/input/a.pdf.tif" ∧
   pdf_path_of "pdf/input/a.tiff.tif" ≠ "pdf/input/a.tiff.pdf") ∧
  (PyStr.endswith "pdf/input/scan.png" ".tiff" = false ∧
   PyStr.endswith "pdf/input/scan.png" ".tif" = false ∧
   ∃ w', tiff_to_pdf (H := Demo.byte_codec) "pdf/input/scan.png"
           (Demo.world_of [("pdf/input/scan.png", Demo.tiff_le ++ [x01])]) =
         (inr "pdf/input/scan.png", w')).
Proof.
  split; [by repeat split|].
  split; [done|]. split; [done|]. eexists. vm_compute. reflexivity.
Qed.

(** C7. On a source path that names no file, [tiff_to_pdf] raises an
    exception whose message holds the path and returns no intermediate
    path; the file system is left as it was and the image is never opened.
    In every call the existence check is the first thing done, before the
    image is opened. *)
Theorem tiff_to_pdf_missing_source `{Codec} path w :
  fs w !! path = None →
  tiff_to_pdf path w =
    (inl (Exception (path +:+ " does not find.")),
     World (fs w)
       (log w ++ [EvExists path; EvPrint "Exiting with Error Code 1:"])) ∧
  ∀ w2, ∃ r files evs,
    tiff_to_pdf path w2 = (r, World files (log w2 ++ EvExists path :: evs)) ∧
    EvExists path ∉ evs.
Proof.
  intros Hfile. split; [by rewrite tiff_to_pdf_run, Hfile|].
  intros w2. rewrite tiff_to_pdf_run.
  destruct (fs w2 !! path) as [content|].
  - destruct (image_frames content) as [[|first rest]|];
      [| destruct (image_save _ _ _) |];
      eexists _, _, _; (split; [reflexivity|]);
      rewrite !not_elem_of_cons; repeat split; try done; apply not_elem_of_nil.
  - eexists _, _, _. split; [reflexivity|].
    rewrite !not_elem_of_cons; repeat split; try done; apply not_elem_of_nil.
Qed.

Lemma tiff_to_pdf_missing_source_witness :
  fs (Demo.world_of []) !! "pdf/input/gone.tif" = None ∧
  tiff_to_pdf (H := Demo.byte_codec) "pdf/input/gone.tif" (Demo.world_of []) =
    (inl (Exception ("pdf/input/gone.tif" +:+ " does not find.")),
     World (fs (Demo.world_of []))
       (log (Demo.world_of []) ++
        [EvExists "pdf/input/gone.tif"; EvPrint "Exiting with Error Code 1:"])) ∧
  ∀ w2, ∃ r files evs,
    tiff_to_pdf (H := Demo.byte_codec) "pdf/input/gone.tif" w2 =
      (r, World files (log w2 ++ EvExists "pdf/input/gone.tif" :: evs)) ∧
    EvExists "pdf/input/gone.tif" ∉ evs.
Proof.
  split; [reflexivity|].
  apply (tiff_to_pdf_missing_source (H := Demo.byte_codec) "pdf/input/gone.tif").
  reflexivity.
Defined.

(** ** Paths inside the input directory *)

Lemma input_path_eq : os_path_join "pdf" "input" = "pdf/input".
Proof. reflexivity. Qed.

Lemma valid_name_no_slash name :
  valid_name name = true → PyStr.startswith name "/" = false.
Proof.
  unfold valid_name. intros Hname. apply andb_true_iff in Hname as [_ Hname].
  apply negb_true_iff in Hname. destruct name as [|c name]; [done|].
  cbn [PyStr.contains] in Hname. by apply orb_false_iff in Hname as [-> _].
Qed.

Lemma join_input name :
  valid_name name = true →
  os_path_join "pdf/input" name = "pdf/input/" +:+ name.
Proof.
  intros Hname. unfold os_path_join. by rewrite valid_name_no_slash.
Qed.

Lemma mem_spec name names : PyStr.mem name names = true ↔ name ∈ names.
Proof.
  unfold PyStr.mem. rewrite existsb_exists. split.
  - intros (x & Hin & Heq). apply String.eqb_eq in Heq as ->.
    by apply list_elem_of_In.
  - intros Hin. exists name. split; [by apply list_elem_of_In|].
    apply String.eqb_refl.
Qed.

(** ** The verdict of [check_hex] depends on the file alone *)

Lemma accepted_file `{Host} w path :
  accepted w path =
  match fs w !! path with
  | Some content => signature_test sys_byteorder content
  | None => false
  end.
Proof.
  unfold accepted. destruct (fs w !! path) as [content|] eqn:Hfile.
  - rewrite (check_hex_run _ _ _ Hfile). cbn [fst].
    by destruct (signature_test sys_byteorder content).
  - by rewrite (check_hex_missing _ _ Hfile).
Qed.

Lemma check_hex_accepted `{Host} w path b w' :
  check_hex path w = (inr b, w') → b = accepted w path ∧ fs w' = fs w.
Proof.
  intros Hrun. rewrite accepted_file.
  destruct (fs w !! path) as [content|] eqn:Hfile.
  - rewrite (check_hex_run _ _ _ Hfile) in Hrun. by injection Hrun as <- <-.
  - by rewrite (check_hex_missing _ _ Hfile) in Hrun.
Qed.

Lemma tiff_to_pdf_returns `{Codec} path w pdf w' :
  tiff_to_pdf path w = (inr pdf, w') →
  pdf = pdf_path_of path ∧
  ∃ out, fs w' = <[pdf_path_of path := out]> (fs w).
Proof.
  rewrite tiff_to_pdf_run.
  destruct (fs w !! path) as [content|]; [|discriminate].
  destruct (image_frames content) as [[|first rest]|]; try discriminate.
  destruct (image_save _ _ _) as [out|]; [|discriminate].
  intros [= <- <-]. eauto.
Qed.

(** ** The filter-and-convert loop *)

Lemma convert_loop_cons `{Host} `{Codec} pat_files file listing acc w :
  valid_name file = true →
  convert_loop pat_files "pdf/input" (file :: listing) acc w =
  if is_tiff_name file then
    match check_hex ("pdf/input/" +:+ file) w with
    | (inl e, w1) => (inl e, w1)
    | (inr signed, w1) =>
        if signed && PyStr.mem file pat_files then
          match tiff_to_pdf ("pdf/input/" +:+ file) w1 with
          | (inl e, w2) => (inl e, w2)
          | (inr pdf, w2) =>
              convert_loop pat_files "pdf/input" listing (acc ++ [pdf]) w2
          end
        else convert_loop pat_files "pdf/input" listing acc w1
    end
  else convert_loop pat_files "pdf/input" listing acc w.
Proof.
  intros Hname. cbn [convert_loop]. rewrite (join_input _ Hname).
  unfold is_tiff_name.
  destruct (PyStr.endswith file ".tiff" || PyStr.endswith file ".tif"); [|done].
  unfold mbind at 1, M_bind at 1.
  destruct (check_hex _ w) as [[e|signed] w1]; [done|].
  destruct (signed && PyStr.mem file pat_files); [|done].
  unfold mbind at 1, M_bind at 1. done.
Qed.

Lemma convert_loop_spec `{Host} `{Codec} pat_files w0 listing :
  ∀ acc w mids w',
    Forall (λ f, valid_name f = true) listing →
    no_clobber listing →
    (∀ f, f ∈ listing → is_tiff_name f = true →
          fs w !! ("pdf/input/" +:+ f) = fs w0 !! ("pdf/input/" +:+ f)) →
    convert_loop pat_files "pdf/input" listing acc w = (inr mids, w') →
    mids = acc ++ ((λ f, pdf_path_of ("pdf/input/" +:+ f)) <$>
                   List.filter (selected pat_files w0) listing).
Proof.
  induction listing as [|file listing IH]; intros acc w mids w' Hvalid Hclob Hsame.
  - cbn. intros [= <- _]. by rewrite app_nil_r.
  - apply Forall_cons in Hvalid as [Hname Hvalid].
    assert (no_clobber listing) as Hclob'.
    { intros f1 f2 H1 H2. apply Hclob; by apply list_elem_of_further. }
    rewrite convert_loop_cons by done. cbn [List.filter]. unfold selected at 1.
    destruct (is_tiff_name file) eqn:Htiff; cbn [andb].
    + destruct (check_hex _ w) as [[e|signed] w1] eqn:Hcheck; [discriminate|].
      apply check_hex_accepted in Hcheck as [-> Hfs1].
      rewrite !accepted_file, (Hsame file) by (done || apply list_elem_of_here).
      rewrite <- accepted_file.
      destruct (accepted w0 _ && PyStr.mem file pat_files) eqn:Hsel.
      * destruct (tiff_to_pdf _ w1) as [[e|pdf] w2] eqn:Hconv; [discriminate|].
        apply tiff_to_pdf_returns in Hconv as [-> [out Hfs2]].
        intros Hloop. apply IH in Hloop; [|done..|].
        { rewrite Hloop, <- app_assoc. done. }
        intros f Hf Hft. rewrite Hfs2, Hfs1.
        rewrite lookup_insert_ne.
        { apply Hsame; [by apply list_elem_of_further|done]. }
        apply Hclob; [apply list_elem_of_here|by apply list_elem_of_further|done..].
      * intros Hloop. apply IH in Hloop; [done..|].
        intros f Hf Hft. rewrite Hfs1.
        apply Hsame; [by apply list_elem_of_further|done].
    + intros Hloop. apply IH in Hloop; [done..|].
      intros f Hf Hft. apply Hsame; [by apply list_elem_of_further|done].
Qed.

(** The loop only writes the intermediate files it returns. *)
Lemma convert_loop_frame `{Host} `{Codec} pat_files listing :
  ∀ acc w mids w',
    Forall (λ f, valid_name f = true) listing →
    convert_loop pat_files "pdf/input" listing acc w = (inr mids, w') →
    ∃ new, mids = acc ++ new ∧
           ∀ path, path ∉ new → fs w' !! path = fs w !! path.
Proof.
  induction listing as [|file listing IH]; intros acc w mids w' Hvalid.
  - cbn. intros [= <- <-]. exists []. by rewrite app_nil_r.
  - apply Forall_cons in Hvalid as [Hname Hvalid].
    rewrite convert_loop_cons by done.
    destruct (is_tiff_name file); [|by apply IH].
    destruct (check_hex _ w) as [[e|signed] w1] eqn:Hcheck; [discriminate|].
    apply check_hex_accepted in Hcheck as [_ Hfs1].
    destruct (signed && PyStr.mem file pat_files).
    + destruct (tiff_to_pdf _ w1) as [[e|pdf] w2] eqn:Hconv; [discriminate|].
      apply tiff_to_pdf_returns in Hconv as [-> [out Hfs2]].
      intros Hloop. apply IH in Hloop as (new & -> & Hframe); [|done].
      exists (pdf_path_of ("pdf/input/" +:+ file) :: new).
      split; [by rewrite <- app_assoc|].
      intros path Hpath. apply not_elem_of_cons in Hpath as [Hne Hpath].
      rewrite (Hframe _ Hpath), Hfs2, Hfs1. by rewrite lookup_insert_ne.
    + intros Hloop. apply IH in Hloop as (new & -> & Hframe); [|done].
      exists new. split; [done|]. intros path Hpath.
      by rewrite (Hframe _ Hpath), Hfs1.
Qed.

Lemma no_clobberb_spec listing : no_clobberb listing = true → no_clobber listing.
Proof.
  unfold no_clobberb, no_clobber. rewrite forallb_forall.
  intros Hall f1 f2 H1 H2 Ht1 Ht2 Heq.
  apply list_elem_of_In in H1, H2. specialize (Hall f1 H1).
  rewrite forallb_forall in Hall. specialize (Hall f2 H2).
  rewrite Ht1, Ht2, Heq, String.eqb_refl in Hall. done.
Qed.

Lemma forallb_valid listing :
  forallb valid_name listing = true → Forall (λ f, valid_name f = true) listing.
Proof.
  rewrite forallb_forall, Forall_forall. intros Hall f Hf.
  by apply Hall, list_elem_of_In.
Qed.

Lemma selected_spec `{Host} pat_files w listing f :
  f ∈ List.filter (selected pat_files w) listing ↔
  f ∈ listing ∧ is_tiff_name f = true ∧
  accepted w ("pdf/input/" +:+ f) = true ∧ f ∈ pat_files.
Proof.
  rewrite list_elem_of_In, filter_In, <- list_elem_of_In. unfold selected.
  rewrite !andb_true_iff, mem_spec. tauto.
Qed.

Lemma check_hex_fs `{Host} path w : fs (check_hex path w).2 = fs w.
Proof.
  destruct (fs w !! path) as [content|] eqn:Hfile.
  - by rewrite (check_hex_run _ _ _ Hfile).
  - by rewrite (check_hex_missing _ _ Hfile).
Qed.

Lemma intermediate_of_input file :
  PyStr.startswith (intermediate_of file) "pdf/input/" = true.
Proof.
  unfold intermediate_of, pdf_path_of.
  change (PyStr.contains ".tiff" ("pdf/input/" +:+ file))
    with (PyStr.contains ".tiff" file).
  by destruct (PyStr.contains ".tiff" file).
Qed.

Lemma tiff_to_pdf_returns_pages `{Codec} path w pdf w' :
  tiff_to_pdf path w = (inr pdf, w') →
  ∃ first rest out,
    pages_of (fs w) path = first :: rest ∧
    image_save (pdf_path_of path) first rest = Some out ∧
    fs w' = <[pdf_path_of path := out]> (fs w).
Proof.
  rewrite tiff_to_pdf_run. unfold pages_of.
  destruct (fs w !! path) as [content|]; [|discriminate].
  destruct (image_frames content) as [[|first rest]|]; try discriminate.
  destruct (image_save _ _ _) as [out|] eqn:Hsave; [|discriminate].
  intros [= <- <-]. by exists (convert_rgb first), (convert_rgb <$> rest), out.
Qed.

Lemma pages_of_same `{Codec} files1 files2 path :
  files1 !! path = files2 !! path → pages_of files1 path = pages_of files2 path.
Proof. unfold pages_of. by intros ->. Qed.

Lemma convert_loop_writes `{Host} `{Codec} pat_files w0 listing :
  ∀ acc w mids w',
    Forall (λ f, valid_name f = true) listing →
    no_clobber listing →
    (∀ f, f ∈ listing → is_tiff_name f = true →
          fs w !! ("pdf/input/" +:+ f) = fs w0 !! ("pdf/input/" +:+ f)) →
    NoDup (intermediate_of <$> List.filter (selected pat_files w0) listing) →
    convert_loop pat_files "pdf/input" listing acc w = (inr mids, w') →
    Forall (λ f, ∃ first rest out,
              pages_of (fs w0) ("pdf/input/" +:+ f) = first :: rest ∧
              image_save (intermediate_of f) first rest = Some out ∧
              fs w' !! intermediate_of f = Some out)
      (List.filter (selected pat_files w0) listing).
Proof.
  induction listing as [|file listing IH];
    intros acc w mids w' Hvalid Hclob Hsame Hdup; [constructor|].
  apply Forall_cons in Hvalid as [Hname Hvalid].
  assert (no_clobber listing) as Hclob'.
  { intros f1 f2 H1 H2. apply Hclob; by apply list_elem_of_further. }
  rewrite convert_loop_cons by done. revert Hdup.
  cbn [List.filter].
  change (selected pat_files w0 file)
    with (is_tiff_name file && accepted w0 ("pdf/input/" +:+ file) &&
          PyStr.mem file pat_files).
  destruct (is_tiff_name file) eqn:Htiff; cbn [andb].
  - destruct (check_hex _ w) as [[e|signed] w1] eqn:Hcheck; [discriminate|].
    apply check_hex_accepted in Hcheck as [-> Hfs1].
    rewrite !accepted_file, (Hsame file) by (done || apply list_elem_of_here).
    rewrite <- accepted_file.
    destruct (accepted w0 _ && PyStr.mem file pat_files) eqn:Hsel.
    + destruct (tiff_to_pdf _ w1) as [[e|pdf] w2] eqn:Hconv; [discriminate|].
      pose proof (tiff_to_pdf_returns _ _ _ _ Hconv) as [-> _].
      apply tiff_to_pdf_returns_pages in Hconv
        as (first & rest & out & Hpages & Hsave & Hfs2).
      rewrite fmap_cons. intros [Hfresh Hdup]%NoDup_cons Hloop.
      assert (∀ f, f ∈ listing → is_tiff_name f = true →
                   fs w2 !! ("pdf/input/" +:+ f) = fs w0 !! ("pdf/input/" +:+ f))
        as Hsame2.
      { intros f Hf Hft. rewrite Hfs2, Hfs1, lookup_insert_ne.
        { apply Hsame; [by apply list_elem_of_further|done]. }
        apply Hclob;
          [apply list_elem_of_here|by apply list_elem_of_further|done..]. }
      constructor; [|by eapply IH]. cbv beta.
      exists first, rest, out. split; [|split; [done|]].
      * rewrite <- Hpages. apply pages_of_same. rewrite Hfs1. symmetry.
        apply Hsame; [apply list_elem_of_here|done].
      * pose proof Hloop as Hspec.
        apply (convert_loop_spec pat_files w0) in Hspec; [|done..].
        apply convert_loop_frame in Hloop as (new & Hnew & Hframe); [|done].
        rewrite Hspec in Hnew. apply app_inv_head in Hnew as <-.
        rewrite (Hframe _ Hfresh), Hfs2. apply lookup_insert_eq.
    + intros Hdup Hloop. eapply IH; [done..| |done|exact Hloop].
      intros f Hf Hft. rewrite Hfs1.
      apply Hsame; [by apply list_elem_of_further|done].
  - intros Hdup Hloop. eapply IH; [done..| |done|exact Hloop].
    intros f Hf Hft. apply Hsame; [by apply list_elem_of_further|done].
Qed.

Lemma tiff_to_pdf_outcome `{Codec} path w :
  fs (tiff_to_pdf path w).2 = fs w ∨
  ∃ out, fs (tiff_to_pdf path w).2 = <[pdf_path_of path := out]> (fs w).
Proof.
  rewrite tiff_to_pdf_run.
  destruct (fs w !! path) as [content|]; [|by left].
  destruct (image_frames content) as [[|first rest]|]; try by left.
  destruct (image_save _ _ _) as [out|]; [right; by exists out|by left].
Qed.

(** Whatever its outcome, the first loop removes no file and writes inside
    the input directory only. *)
Lemma convert_loop_any_outcome `{Host} `{Codec} pat_files listing :
  ∀ acc w r w',
    Forall (λ f, valid_name f = true) listing →
    convert_loop pat_files "pdf/input" listing acc w = (r, w') →
    (∀ path, is_Some (fs w !! path) → is_Some (fs w' !! path)) ∧
    (∀ path, PyStr.startswith path "pdf/input/" = false →
             fs w' !! path = fs w !! path).
Proof.
  induction listing as [|file listing IH]; intros acc w r w' Hvalid.
  - cbn. by intros [= _ <-].
  - apply Forall_cons in Hvalid as [Hname Hvalid].
    rewrite convert_loop_cons by done.
    destruct (is_tiff_name file); [|by apply IH].
    pose proof (check_hex_fs ("pdf/input/" +:+ file) w) as Hfs1.
    destruct (check_hex _ w) as [[e|signed] w1]; cbn [snd] in Hfs1.
    { intros [= _ <-]. by rewrite Hfs1. }
    destruct (signed && PyStr.mem file pat_files).
    2: { intros Hloop. apply IH in Hloop; [|done]. by rewrite Hfs1 in Hloop. }
    pose proof (tiff_to_pdf_outcome ("pdf/input/" +:+ file) w1) as Hfs2.
    fold (intermediate_of file) in Hfs2.
    assert (∀ w2, fs w2 = fs w1 ∨ (∃ out, fs w2 = <[intermediate_of file := out]> (fs w1)) →
              (∀ path, is_Some (fs w !! path) → is_Some (fs w2 !! path)) ∧
              (∀ path, PyStr.startswith path "pdf/input/" = false →
                       fs w2 !! path = fs w !! path)) as Hstep.
    { intros w2 [->|[out ->]]; rewrite Hfs1; [done|]. split.
      - intros path Hpath.
        destruct (decide (intermediate_of file = path)) as [<-|Hne].
        + rewrite lookup_insert_eq. eauto.
        + by rewrite lookup_insert_ne.
      - intros path Hpath. rewrite lookup_insert_ne; [done|].
        intros <-. by rewrite intermediate_of_input in Hpath. }
    destruct (tiff_to_pdf _ w1) as [[e|pdf] w2]; cbn [snd] in Hfs2.
    { intros [= _ <-]. by apply Hstep. }
    intros Hloop. apply IH in Hloop as [Hkeep Hout]; [|done].
    destruct (Hstep w2 Hfs2) as [Hkeep2 Hout2]. split.
    + intros path Hpath. by apply Hkeep, Hkeep2.
    + intros path Hpath. by rewrite Hout, Hout2.
Qed.

Lemma convert_loop_new_in_input `{Host} `{Codec} pat_files listing :
  ∀ acc w mids w',
    Forall (λ f, valid_name f = true) listing →
    convert_loop pat_files "pdf/input" listing acc w = (inr mids, w') →
    ∃ new, mids = acc ++ new ∧
           Forall (λ p, PyStr.startswith p "pdf/input/" = true) new.
Proof.
  induction listing as [|file listing IH]; intros acc w mids w' Hvalid.
  - cbn. intros [= <- _]. exists []. by rewrite app_nil_r.
  - apply Forall_cons in Hvalid as [Hname Hvalid].
    rewrite convert_loop_cons by done.
    destruct (is_tiff_name file); [|by apply IH].
    destruct (check_hex _ w) as [[e|signed] w1]; [discriminate|].
    destruct (signed && PyStr.mem file pat_files); [|by apply IH].
    destruct (tiff_to_pdf _ w1) as [[e|pdf] w2] eqn:Hconv; [discriminate|].
    apply tiff_to_pdf_returns in Hconv as [-> _].
    intros Hloop. apply IH in Hloop as (new & -> & Hnew); [|done].
    exists (intermediate_of file :: new). split; [by rewrite <- app_assoc|].
    constructor; [apply intermediate_of_input|done].
Qed.

(** ** What the loop leaves in the log and in the files *)

Lemma images_opened_app evs1 evs2 :
  images_opened (evs1 ++ evs2) = images_opened evs1 ++ images_opened evs2.
Proof.
  induction evs1 as [|e evs1 IH]; [done|].
  destruct e; cbn; by rewrite ?IH.
Qed.

Lemma documents_saved_app evs1 evs2 :
  documents_saved (evs1 ++ evs2) = documents_saved evs1 ++ documents_saved evs2.
Proof.
  induction evs1 as [|e evs1 IH]; [done|].
  destruct e; cbn; by rewrite ?IH.
Qed.

Lemma reads_open_nothing path sizes :
  images_opened (EvRead path <$> sizes) = [] ∧
  documents_saved (EvRead path <$> sizes) = [].
Proof. induction sizes as [|k sizes IH]; done. Qed.

Lemma check_hex_events_quiet path content ok :
  images_opened (check_hex_events path content ok) = [] ∧
  documents_saved (check_hex_events path content ok) = [].
Proof.
  unfold check_hex_events. cbn [images_opened documents_saved].
  rewrite images_opened_app, documents_saved_app.
  destruct (reads_open_nothing path (chunk_sizes (S (length content)) content 0))
    as [-> ->].
  by destruct ok.
Qed.

Lemma check_hex_returns `{Host} path w b w' :
  check_hex path w = (inr b, w') →
  b = accepted w path ∧
  ∃ evs, w' = World (fs w) (log w ++ evs) ∧
         images_opened evs = [] ∧ documents_saved evs = [].
Proof.
  intros Hrun. rewrite accepted_file.
  destruct (fs w !! path) as [content|] eqn:Hfile.
  - rewrite (check_hex_run _ _ _ Hfile) in Hrun. injection Hrun as <- <-.
    split; [done|]. eexists. split; [reflexivity|].
    apply check_hex_events_quiet.
  - by rewrite (check_hex_missing _ _ Hfile) in Hrun.
Qed.

Lemma tiff_to_pdf_returns_log `{Codec} path w pdf w' :
  tiff_to_pdf path w = (inr pdf, w') →
  pdf = pdf_path_of path ∧
  ∃ out, w' = World (<[pdf_path_of path := out]> (fs w))
                (log w ++ [EvExists path; EvImageOpen path;
                           EvSave (pdf_path_of path);
                           EvPrint (pdf_path_of path +:+ " created")]).
Proof.
  rewrite tiff_to_pdf_run.
  destruct (fs w !! path) as [content|]; [|discriminate].
  destruct (image_frames content) as [[|first rest]|]; try discriminate.
  destruct (image_save _ _ _) as [out|]; [|discriminate].
  intros [= <- <-]. eauto.
Qed.

(** The images opened and the documents saved by the loop are those of the
    selected entries, in the order of the listing. *)
Lemma convert_loop_log `{Host} `{Codec} pat_files w0 listing :
  ∀ acc w mids w',
    Forall (λ f, valid_name f = true) listing →
    no_clobber listing →
    (∀ f, f ∈ listing → is_tiff_name f = true →
          fs w !! ("pdf/input/" +:+ f) = fs w0 !! ("pdf/input/" +:+ f)) →
    convert_loop pat_files "pdf/input" listing acc w = (inr mids, w') →
    ∃ evs,
      log w' = log w ++ evs ∧
      images_opened evs =
        (λ f, "pdf/input/" +:+ f) <$> List.filter (selected pat_files w0) listing ∧
      documents_saved evs =
        (λ f, pdf_path_of ("pdf/input/" +:+ f)) <$>
        List.filter (selected pat_files w0) listing.
Proof.
  induction listing as [|file listing IH]; intros acc w mids w' Hvalid Hclob Hsame.
  - cbn. intros [= _ <-]. exists []. by rewrite app_nil_r.
  - apply Forall_cons in Hvalid as [Hname Hvalid].
    assert (no_clobber listing) as Hclob'.
    { intros f1 f2 Hin1 Hin2. apply Hclob; by apply list_elem_of_further. }
    rewrite convert_loop_cons by done. cbn [List.filter].
    change (selected pat_files w0 file)
      with (is_tiff_name file && accepted w0 ("pdf/input/" +:+ file) &&
            PyStr.mem file pat_files).
    destruct (is_tiff_name file) eqn:Htiff; cbn [andb].
    + destruct (check_hex _ w) as [[e|signed] w1] eqn:Hcheck; [discriminate|].
      apply check_hex_returns in Hcheck as [-> (evs1 & -> & Hopen1 & Hsave1)].
      rewrite !accepted_file, (Hsame file) by (done || apply list_elem_of_here).
      rewrite <- accepted_file.
      destruct (accepted w0 _ && PyStr.mem file pat_files) eqn:Hsel.
      * destruct (tiff_to_pdf _ _) as [[e|pdf] w2] eqn:Hconv; [discriminate|].
        apply tiff_to_pdf_returns_log in Hconv as [-> [out ->]]. cbn [fs log].
        intros Hloop. apply IH in Hloop as (evs & Hlog & Hopen & Hsave);
          [|done..|].
        { cbn [log] in Hlog. eexists. split.
          - rewrite Hlog, <- !app_assoc. reflexivity.
          - rewrite !images_opened_app, !documents_saved_app, Hopen1, Hsave1,
              Hopen, Hsave. done. }
        intros f Hf Hft. cbn [fs]. rewrite lookup_insert_ne.
        { apply Hsame; [by apply list_elem_of_further|done]. }
        apply Hclob; [apply list_elem_of_here|by apply list_elem_of_further|done..].
      * intros Hloop. apply IH in Hloop as (evs & Hlog & Hopen & Hsave);
          [|done..|].
        { cbn [log] in Hlog. eexists. split.
          - rewrite Hlog, <- !app_assoc. reflexivity.
          - rewrite !images_opened_app, !documents_saved_app, Hopen1, Hsave1,
              Hopen, Hsave. done. }
        intros f Hf Hft. cbn [fs].
        apply Hsame; [by apply list_elem_of_further|done].
    + intros Hloop. apply IH in Hloop; [done..|].
      intros f Hf Hft. apply Hsame; [by apply list_elem_of_further|done].
Qed.

(** Every intermediate file the loop returns is there when it ends. *)
Lemma convert_loop_written `{Host} `{Codec} pat_files listing :
  ∀ acc w mids w',
    Forall (λ f, valid_name f = true) listing →
    convert_loop pat_files "pdf/input" listing acc w = (inr mids, w') →
    ∃ new, mids = acc ++ new ∧ ∀ pdf, pdf ∈ new → is_Some (fs w' !! pdf).
Proof.
  induction listing as [|file listing IH]; intros acc w mids w' Hvalid.
  - cbn. intros [= <- _]. exists []. split; [by rewrite app_nil_r|].
    intros pdf Hin. by apply elem_of_nil in Hin.
  - apply Forall_cons in Hvalid as [Hname Hvalid].
    rewrite convert_loop_cons by done.
    destruct (is_tiff_name file); [|by apply IH].
    destruct (check_hex _ w) as [[e|signed] w1]; [discriminate|].
    destruct (signed && PyStr.mem file pat_files); [|by apply IH].
    destruct (tiff_to_pdf _ w1) as [[e|pdf] w2] eqn:Hconv; [discriminate|].
    apply tiff_to_pdf_returns in Hconv as [-> [out Hfs2]].
    intros Hloop.
    pose proof (convert_loop_any_outcome _ _ _ _ _ _ Hvalid Hloop) as [Hkeep _].
    apply IH in Hloop as (new & -> & Hnew); [|done].
    exists (pdf_path_of ("pdf/input/" +:+ file) :: new).
    split; [by rewrite <- app_assoc|].
    intros pdf [->|Hin]%elem_of_cons; [|by apply Hnew].
    apply Hkeep. rewrite Hfs2, lookup_insert_eq. eauto.
Qed.

(** C4, as the code has it.  When the loop of [main] runs to its end, the
    files converted are exactly the entries of the listing that end in
    [.tif] or [.tiff], that [check_hex] accepts, and whose name is one of the
    command-line arguments, program name and job identifier included: these
    are the sources whose image was opened and whose document was saved, in
    the order of the directory listing, and their intermediate paths are
    what the loop returns, in that order.  Every intermediate file is there
    at the end, and no other file has been written or changed; when the
    intermediate paths are pairwise distinct, each holds the document saved
    from the pages of its source.  (The entries are file names, and no
    intermediate path is itself a listed TIFF name.) *)
Theorem convert_loop_selects `{Host} `{Codec} pat_files listing w mids w' :
  forallb valid_name listing = true →
  no_clobberb listing = true →
  convert_loop pat_files (os_path_join "pdf" "input") listing [] w = (inr mids, w') →
  ∃ converted evs,
    converted = List.filter (selected pat_files w) listing ∧
    (∀ f, f ∈ converted ↔
          f ∈ listing ∧ is_tiff_name f = true ∧
          accepted w ("pdf/input/" +:+ f) = true ∧ f ∈ pat_files) ∧
    mids = (λ f, pdf_path_of ("pdf/input/" +:+ f)) <$> converted ∧
    log w' = log w ++ evs ∧
    images_opened evs = (λ f, "pdf/input/" +:+ f) <$> converted ∧
    documents_saved evs = mids ∧
    (∀ path, path ∉ mids → fs w' !! path = fs w !! path) ∧
    (∀ pdf, pdf ∈ mids → is_Some (fs w' !! pdf)) ∧
    (NoDup mids →
     Forall (λ f, ∃ first rest out,
               pages_of (fs w) ("pdf/input/" +:+ f) = first :: rest ∧
               image_save (pdf_path_of ("pdf/input/" +:+ f)) first rest =
                 Some out ∧
               fs w' !! pdf_path_of ("pdf/input/" +:+ f) = Some out)
       converted).
Proof.
  intros Hvalid%forallb_valid Hclob%no_clobberb_spec Hloop.
  rewrite input_path_eq in Hloop.
  assert (∀ f, f ∈ listing → is_tiff_name f = true →
               fs w !! ("pdf/input/" +:+ f) = fs w !! ("pdf/input/" +:+ f))
    as Hsame by done.
  pose proof (convert_loop_spec pat_files w listing [] w mids w'
                Hvalid Hclob Hsame Hloop) as Hmids.
  cbn [app] in Hmids.
  destruct (convert_loop_log pat_files w listing [] w mids w'
              Hvalid Hclob Hsame Hloop) as (evs & Hlog & Hopen & Hsave).
  destruct (convert_loop_frame pat_files listing [] w mids w' Hvalid Hloop)
    as (new & Hnew & Hframe).
  destruct (convert_loop_written pat_files listing [] w mids w' Hvalid Hloop)
    as (new' & Hnew' & Hthere).
  cbn [app] in Hnew, Hnew'. subst new new'.
  exists (List.filter (selected pat_files w) listing), evs.
  split; [done|]. split; [intros f; apply selected_spec|].
  split; [done|]. split; [done|]. split; [done|].
  split; [by rewrite Hmids|]. split; [done|]. split; [done|].
  intros Hdup. rewrite Hmids in Hdup.
  exact (convert_loop_writes pat_files w listing [] w mids w'
           Hvalid Hclob Hsame Hdup Hloop).
Qed.

Lemma convert_loop_selects_witness :
  forallb valid_name ["z.txt"; "y.tif"; "x.tif"] = true ∧
  no_clobberb ["z.txt"; "y.tif"; "x.tif"] = true ∧
  convert_loop (H := Demo.little_host) (H0 := Demo.byte_codec) Demo.mixed_argv
    (os_path_join "pdf" "input") ["z.txt"; "y.tif"; "x.tif"] [] Demo.mixed_world =
  (inr ["pdf/input/x.pdf"],
   (convert_loop (H := Demo.little_host) (H0 := Demo.byte_codec) Demo.mixed_argv
      (os_path_join "pdf" "input") ["z.txt"; "y.tif"; "x.tif"] []
      Demo.mixed_world).2) ∧
  List.filter (selected (H := Demo.little_host) Demo.mixed_argv Demo.mixed_world)
    ["z.txt"; "y.tif"; "x.tif"] = ["x.tif"] ∧
  ∃ converted evs,
    converted = List.filter (selected (H := Demo.little_host) Demo.mixed_argv
                               Demo.mixed_world) ["z.txt"; "y.tif"; "x.tif"] ∧
    (∀ f, f ∈ converted ↔
          f ∈ ["z.txt"; "y.tif"; "x.tif"] ∧ is_tiff_name f = true ∧
          accepted (H := Demo.little_host) Demo.mixed_world ("pdf/input/" +:+ f) =
            true ∧
          f ∈ Demo.mixed_argv) ∧
    ["pdf/input/x.pdf"] = (λ f, pdf_path_of ("pdf/input/" +:+ f)) <$> converted ∧
    log (convert_loop (H := Demo.little_host) (H0 := Demo.byte_codec)
           Demo.mixed_argv (os_path_join "pdf" "input")
           ["z.txt"; "y.tif"; "x.tif"] [] Demo.mixed_world).2 =
      log Demo.mixed_world ++ evs ∧
    images_opened evs = (λ f, "pdf/input/" +:+ f) <$> converted ∧
    documents_saved evs = ["pdf/input/x.pdf"] ∧
    (∀ path, path ∉ ["pdf/input/x.pdf"] →
             fs (convert_loop (H := Demo.little_host) (H0 := Demo.byte_codec)
                   Demo.mixed_argv (os_path_join "pdf" "input")
                   ["z.txt"; "y.tif"; "x.tif"] [] Demo.mixed_world).2 !! path =
             fs Demo.mixed_world !! path) ∧
    (∀ pdf, pdf ∈ ["pdf/input/x.pdf"] →
            is_Some (fs (convert_loop (H := Demo.little_host)
                           (H0 := Demo.byte_codec) Demo.mixed_argv
                           (os_path_join "pdf" "input")
                           ["z.txt"; "y.tif"; "x.tif"] []
                           Demo.mixed_world).2 !! pdf)) ∧
    (NoDup ["pdf/input/x.pdf"] →
     Forall (λ f, ∃ first rest out,
               pages_of (H := Demo.byte_codec) (fs Demo.mixed_world)
                 ("pdf/input/" +:+ f) = first :: rest ∧
               image_save (Codec := Demo.byte_codec)
                 (pdf_path_of ("pdf/input/" +:+ f)) first rest = Some out ∧
               fs (convert_loop (H := Demo.little_host) (H0 := Demo.byte_codec)
                     Demo.mixed_argv (os_path_join "pdf" "input")
                     ["z.txt"; "y.tif"; "x.tif"] [] Demo.mixed_world).2
                 !! pdf_path_of ("pdf/input/" +:+ f) = Some out)
       converted).
Proof.
  split; [reflexivity|]. split; [reflexivity|].
  assert (convert_loop (H := Demo.little_host) (H0 := Demo.byte_codec)
            Demo.mixed_argv (os_path_join "pdf" "input")
            ["z.txt"; "y.tif"; "x.tif"] [] Demo.mixed_world =
          (inr ["pdf/input/x.pdf"],
           (convert_loop (H := Demo.little_host) (H0 := Demo.byte_codec)
              Demo.mixed_argv (os_path_join "pdf" "input")
              ["z.txt"; "y.tif"; "x.tif"] [] Demo.mixed_world).2)) as Hrun.
  { vm_compute. reflexivity. }
  split; [exact Hrun|]. split; [vm_compute; reflexivity|].
  exact (convert_loop_selects (H := Demo.little_host) (H0 := Demo.byte_codec)
           Demo.mixed_argv ["z.txt"; "y.tif"; "x.tif"] Demo.mixed_world
           ["pdf/input/x.pdf"] _ eq_refl eq_refl Hrun).
Defined.

(** C4 as stated fails: the membership test ranges over the whole argument
    vector, so a signed TIFF named like the job identifier is converted
    although it is not one of the file names the caller supplied. *)
Lemma convert_loop_takes_job_identifier :
  PyStr.mem "scan.tif" (caller_filenames Demo.job_argv) = false ∧
  ∃ w', convert_loop (H := Demo.little_host) (H0 := Demo.byte_codec)
          Demo.job_argv (os_path_join "pdf" "input")
          (@listdir Demo.little_host (fs Demo.job_world) "pdf/input") []
          Demo.job_world =
        (inr ["pdf/input/scan.pdf"], w').
Proof. split; [reflexivity|]. eexists. vm_compute. reflexivity. Qed.

(** ** Cleanup *)

Lemma lookup_delete_all paths : ∀ (files : gmap string (list byte)) path,
  delete_all paths files !! path =
  if bool_decide (path ∈ paths) then None else files !! path.
Proof.
  induction paths as [|p paths IH]; intros files path.
  - by rewrite bool_decide_eq_false_2 by apply not_elem_of_nil.
  - change (delete_all (p :: paths) files) with (delete_all paths (delete p files)).
    rewrite IH. destruct (decide (path ∈ paths)) as [Hin|Hout].
    + rewrite !bool_decide_eq_true_2; [done|by apply list_elem_of_further|done].
    + rewrite (bool_decide_eq_false_2 (path ∈ paths)) by done.
      destruct (decide (path = p)) as [->|Hne].
      * rewrite bool_decide_eq_true_2 by apply list_elem_of_here.
        apply lookup_delete_eq.
      * rewrite bool_decide_eq_false_2.
        { by apply lookup_delete_ne. }
        rewrite not_elem_of_cons. done.
Qed.

Lemma os_remove_returns path w w' :
  os_remove path w = (inr tt, w') → fs w' = delete path (fs w).
Proof.
  unfold os_remove. destruct (fs w !! path); [|discriminate]. by intros [= <-].
Qed.

Lemma remove_middle_files_run mids : ∀ w w',
  remove_middle_files mids w = (inr tt, w') → fs w' = delete_all mids (fs w).
Proof.
  induction mids as [|file mids IH]; intros w w'.
  - cbn. by intros [= <-].
  - cbn [remove_middle_files]. munfold. cbn [fs log].
    destruct (os_remove file _) as [[e|[]] w1] eqn:Hrm; [discriminate|].
    apply os_remove_returns in Hrm. cbn [fs] in Hrm.
    intros Hrest. apply IH in Hrest. by rewrite Hrest, Hrm.
Qed.

Lemma remove_origin_files_run pat_files listing : ∀ w w',
  Forall (λ f, valid_name f = true) listing →
  remove_origin_files pat_files "pdf/input" listing w = (inr tt, w') →
  fs w' = delete_all ((λ f, "pdf/input/" +:+ f) <$>
                      List.filter (λ f, PyStr.mem f pat_files) listing) (fs w).
Proof.
  induction listing as [|file listing IH]; intros w w' Hvalid.
  - cbn. by intros [= <-].
  - apply Forall_cons in Hvalid as [Hname Hvalid].
    cbn [remove_origin_files List.filter]. rewrite (join_input _ Hname).
    destruct (PyStr.mem file pat_files); [|by apply IH].
    munfold. cbn [fs log].
    destruct (os_remove _ _) as [[e|[]] w1] eqn:Hrm; [discriminate|].
    apply os_remove_returns in Hrm. cbn [fs] in Hrm.
    intros Hrest. apply IH in Hrest; [|done]. by rewrite Hrest, Hrm.
Qed.

Lemma listdir_valid `{HostLaws} files d :
  Forall (λ f, valid_name f = true) (listdir files d).
Proof. apply Forall_forall. intros f Hf. by apply listdir_spec in Hf as [? _]. Qed.

Lemma cleanup_run `{HostLaws} pat_files mids w w' :
  cleanup pat_files "pdf/input" mids w = (inr tt, w') →
  fs w' =
  delete_all ((λ f, "pdf/input/" +:+ f) <$>
              List.filter (λ f, PyStr.mem f pat_files)
                (listdir (delete_all mids (fs w)) "pdf/input"))
    (delete_all mids (fs w)).
Proof.
  unfold cleanup, os_listdir. unfold mbind at 1, M_bind at 1.
  destruct (remove_middle_files mids w) as [[e|[]] w1] eqn:Hmid; [discriminate|].
  apply remove_middle_files_run in Hmid.
  unfold mbind, M_bind. cbn [fs log]. intros Hrest.
  apply remove_origin_files_run in Hrest; [|apply listdir_valid].
  cbn [fs] in Hrest. by rewrite Hrest, Hmid.
Qed.

(** What is left after a cleanup that ran to its end. *)
Lemma cleanup_effect `{HostLaws} pat_files mids w w' :
  cleanup pat_files "pdf/input" mids w = (inr tt, w') →
  (∀ pdf, pdf ∈ mids → fs w' !! pdf = None) ∧
  (∀ name, valid_name name = true → name ∈ pat_files →
           fs w' !! ("pdf/input/" +:+ name) = None) ∧
  (∀ path, path ∉ mids →
           (∀ name, name ∈ listdir (delete_all mids (fs w)) "pdf/input" →
                    name ∈ pat_files → path ≠ "pdf/input/" +:+ name) →
           fs w' !! path = fs w !! path).
Proof.
  intros Hrun. apply cleanup_run in Hrun.
  set (files1 := delete_all mids (fs w)) in *.
  set (gone := (λ f, "pdf/input/" +:+ f) <$>
               List.filter (λ f, PyStr.mem f pat_files) (listdir files1 "pdf/input"))
    in *.
  split; [|split].
  - intros pdf Hpdf. rewrite Hrun, lookup_delete_all.
    case_bool_decide; [done|]. unfold files1.
    by rewrite lookup_delete_all, bool_decide_eq_true_2.
  - intros name Hname Hmem. rewrite Hrun, lookup_delete_all.
    case_bool_decide as Hgone; [done|].
    destruct (files1 !! ("pdf/input/" +:+ name)) as [content|] eqn:Hfile; [|done].
    exfalso. apply Hgone. unfold gone. apply list_elem_of_fmap.
    exists name. split; [done|].
    apply list_elem_of_In, filter_In. split.
    + apply list_elem_of_In, listdir_spec. split; [done|].
      change ("pdf/input" +:+ "/" +:+ name) with ("pdf/input/" +:+ name). eauto.
    + by apply mem_spec.
  - intros path Hmid Hname. rewrite Hrun, lookup_delete_all.
    rewrite bool_decide_eq_false_2.
    + unfold files1. by rewrite lookup_delete_all, bool_decide_eq_false_2.
    + unfold gone. intros (name & -> & Hin)%list_elem_of_fmap.
      apply list_elem_of_In, filter_In in Hin as [Hin Hmem].
      apply list_elem_of_In in Hin. apply mem_spec in Hmem.
      by apply (Hname name).
Qed.

(** ** Only [quit()] ends the process *)

Lemma no_exit_bind {A B} (m : M A) (k : A → M B) :
  no_exit m → (∀ a, no_exit (k a)) → no_exit (m ≫= k).
Proof.
  intros Hm Hk w w'. unfold mbind, M_bind.
  destruct (m w) as [[e|a] w1] eqn:Hrun.
  - intros [= -> ->]. by destruct (Hm _ _ Hrun).
  - apply Hk.
Qed.

Lemma no_exit_ret {A} (a : A) : no_exit (mret a).
Proof. by intros w w'. Qed.

Lemma no_exit_emit e : no_exit (emit e).
Proof. by intros w w'. Qed.

Lemma no_exit_check_hex `{Host} path : no_exit (check_hex path).
Proof.
  intros w w'. destruct (fs w !! path) as [content|] eqn:Hfile.
  - by rewrite (check_hex_run _ _ _ Hfile).
  - by rewrite (check_hex_missing _ _ Hfile).
Qed.

Lemma no_exit_tiff_to_pdf `{Codec} path : no_exit (tiff_to_pdf path).
Proof.
  intros w w'. rewrite tiff_to_pdf_run.
  destruct (fs w !! path) as [content|]; [|done].
  destruct (image_frames content) as [[|first rest]|]; try done.
  by destruct (image_save _ _ _).
Qed.

Lemma no_exit_convert_loop `{Host} `{Codec} pat_files input_path listing :
  ∀ acc, no_exit (convert_loop pat_files input_path listing acc).
Proof.
  induction listing as [|file listing IH]; intros acc; cbn [convert_loop].
  - apply no_exit_ret.
  - destruct (_ || _); [|apply IH].
    apply no_exit_bind; [apply no_exit_check_hex|]. intros signed.
    destruct (_ && _); [|apply IH].
    apply no_exit_bind; [apply no_exit_tiff_to_pdf|]. intros pdf. apply IH.
Qed.

Lemma no_exit_file_content path : no_exit (file_content path).
Proof. intros w w'. unfold file_content. by destruct (fs w !! path). Qed.

Lemma no_exit_append_all `{Codec} mids : ∀ acc, no_exit (append_all mids acc).
Proof.
  induction mids as [|pdf mids IH]; intros acc; cbn [append_all].
  - apply no_exit_ret.
  - apply no_exit_bind; [|intros merger; apply IH].
    unfold merger_append.
    apply no_exit_bind; [apply no_exit_emit|]. intros _.
    apply no_exit_bind; [apply no_exit_file_content|]. intros content.
    by destruct (pdf_pages content).
Qed.

Lemma no_exit_os_remove path : no_exit (os_remove path).
Proof. intros w w'. unfold os_remove. by destruct (fs w !! path). Qed.

Lemma no_exit_remove_middle_files mids : no_exit (remove_middle_files mids).
Proof.
  induction mids as [|file mids IH]; cbn [remove_middle_files].
  - apply no_exit_ret.
  - apply no_exit_bind; [apply no_exit_emit|]. intros _.
    apply no_exit_bind; [apply no_exit_os_remove|]. intros _. apply IH.
Qed.

Lemma no_exit_remove_origin_files pat_files input_path listing :
  no_exit (remove_origin_files pat_files input_path listing).
Proof.
  induction listing as [|file listing IH]; cbn [remove_origin_files].
  - apply no_exit_ret.
  - destruct (PyStr.mem file pat_files); [|apply IH].
    apply no_exit_bind; [apply no_exit_emit|]. intros _.
    apply no_exit_bind; [apply no_exit_os_remove|]. intros _. apply IH.
Qed.

Lemma no_exit_cleanup `{Host} pat_files input_path mids :
  no_exit (cleanup pat_files input_path mids).
Proof.
  unfold cleanup.
  apply no_exit_bind; [apply no_exit_remove_middle_files|]. intros _.
  apply no_exit_bind; [by intros w w'|]. intros listing.
  apply no_exit_remove_origin_files.
Qed.

Lemma bind_exit_inv {A B} (m : M A) (k : A → M B) w w' :
  no_exit m → (m ≫= k) w = (inl SystemExit, w') →
  ∃ a w1, m w = (inr a, w1) ∧ k a w1 = (inl SystemExit, w').
Proof.
  intros Hm. unfold mbind, M_bind.
  destruct (m w) as [[e|a] w1] eqn:Hrun.
  - intros [= -> ->]. by destruct (Hm _ _ Hrun).
  - eauto.
Qed.

(** ** The stages of a run of [main] that ends with [quit()] *)

Lemma append_all_frame `{Codec} mids : ∀ acc w merger w',
  append_all mids acc w = (inr merger, w') → fs w' = fs w.
Proof.
  induction mids as [|pdf mids IH]; intros acc w merger w'; cbn [append_all].
  - by intros [= _ <-].
  - unfold merger_append, file_content. munfold. cbn [fs log].
    destruct (fs w !! pdf) as [content|]; [|discriminate].
    destruct (pdf_pages content) as [pages|]; [|discriminate].
    intros Hrest. by apply IH in Hrest.
Qed.

Lemma main_run `{Host} `{Codec} argv now w w' :
  main argv now w = (inl SystemExit, w') →
  ∃ job w0 mids w1 merger w2 w3 w4,
    argv !! 1%nat = Some job ∧
    fs w0 = fs w ∧
    convert_loop argv "pdf/input" (listdir (fs w) "pdf/input") [] w0 = (inr mids, w1) ∧
    append_all mids [] w1 = (inr merger, w2) ∧
    fs w2 = fs w1 ∧
    fs w3 = <[merged_path job now := pdf_write merger]> (fs w2) ∧
    cleanup argv "pdf/input" mids w3 = (inr tt, w4) ∧
    fs w' = fs w4.
Proof.
  unfold main. rewrite input_path_eq.
  destruct (argv !! 1%nat) as [job|] eqn:Hjob.
  2: { unfold mbind, M_bind, mthrow, M_throw. discriminate. }
  intros Hrun. exists job.
  unfold mbind at 1, M_bind at 1, mret at 1, M_ret at 1 in Hrun.
  unfold print at 1, emit at 1, mbind at 1, M_bind at 1 in Hrun.
  unfold os_listdir at 1, mbind at 1, M_bind at 1 in Hrun. cbn [fs log] in Hrun.
  apply bind_exit_inv in Hrun as (mids & w1 & Hloop & Hrun);
    [|apply no_exit_convert_loop].
  apply bind_exit_inv in Hrun as (merger & w2 & Happ & Hrun);
    [|apply no_exit_append_all].
  unfold merger_write, write_file in Hrun. munfold. cbn [fs log] in Hrun.
  match type of Hrun with
  | context [cleanup _ _ _ ?w] => set (w3 := w) in *
  end.
  destruct (cleanup argv "pdf/input" mids w3) as [[e|[]] w4] eqn:Hclean.
  { injection Hrun as -> ->. by destruct (no_exit_cleanup _ _ _ _ _ Hclean). }
  injection Hrun as <-.
  eexists _, mids, w1, merger, w2, w3, w4.
  split; [done|]. split; [|split; [exact Hloop|]]; [done|].
  split; [exact Happ|]. split; [by eapply append_all_frame|].
  split; [done|]. split; [exact Hclean|done].
Qed.

(** ** The concrete host lists a directory faithfully *)

Lemma string_drop_app pre s : Demo.string_drop (String.length pre) (pre +:+ s) = s.
Proof. induction pre as [|c pre IH]; [by destruct s|]. exact IH. Qed.

Lemma startswith_split s pre :
  PyStr.startswith s pre = true →
  s = pre +:+ Demo.string_drop (String.length pre) s.
Proof.
  revert s. induction pre as [|c pre IH]; intros s; [by destruct s|].
  destruct s as [|c' s]; [done|]. cbn [PyStr.startswith].
  intros [Hc Hs]%andb_true_iff. apply Ascii.eqb_eq in Hc as <-.
  change (String c s = String c (pre +:+ Demo.string_drop (String.length pre) s)).
  f_equal. by apply IH.
Qed.

Lemma entry_name_spec d path name :
  Demo.entry_name d path = Some name ↔
  valid_name name = true ∧ path = d +:+ "/" +:+ name.
Proof.
  unfold Demo.entry_name. split.
  - destruct (PyStr.startswith path (d +:+ "/")) eqn:Hpre; [|done].
    destruct (valid_name _) eqn:Hvalid; [|done]. intros [= <-].
    split; [done|]. rewrite <- string_app_assoc. by apply startswith_split.
  - intros [Hvalid ->]. rewrite <- string_app_assoc.
    by rewrite startswith_app, string_drop_app, Hvalid.
Qed.

#[export] Instance demo_host_laws : @HostLaws Demo.little_host.
Proof.
  constructor. intros files d name. cbn [listdir Demo.little_host].
  unfold Demo.listdir_keys. rewrite list_elem_of_omap. split.
  - intros (path & Hpath & Hentry). apply entry_name_spec in Hentry as [Hvalid ->].
    split; [done|]. apply list_elem_of_fmap in Hpath as ([p content] & -> & Hin).
    apply elem_of_map_to_list in Hin. eauto.
  - intros [Hvalid [content Hfile]]. exists (d +:+ "/" +:+ name). split.
    + apply list_elem_of_fmap. exists (d +:+ "/" +:+ name, content).
      split; [done|]. by apply elem_of_map_to_list.
    + by apply entry_name_spec.
Qed.

(** ** The whole run *)

(** When its name is a plain file name, the merged document lies in
    [pdf/output]. *)
Lemma merged_path_plain `{Host} job now :
  plain_output job now = true →
  merged_path job now = "pdf/output/" +:+ outfile_name (pat_id_of job) now.
Proof.
  unfold plain_output, merged_path. intros Hplain.
  change (os_path_join "pdf" "output") with "pdf/output".
  unfold os_path_join. by rewrite valid_name_no_slash.
Qed.

(** C2, as the code has it.  After a run of [main] that ends with [quit()],
    every intermediate PDF that the convert step produced is gone, and so
    is every entry of the input directory whose name is one of the
    command-line arguments (program name and job identifier included),
    converted or not.  Every other file is as it was before the run, the
    merged output apart.  (The name of the merged output is a plain file
    name: it is written in [pdf/output].) *)
Theorem main_cleans_up `{Host} `{!HostLaws} `{Codec} argv now w w' job :
  argv !! 1%nat = Some job →
  plain_output job now = true →
  main argv now w = (inl SystemExit, w') →
  ∃ mids w0 w1,
    fs w0 = fs w ∧
    convert_loop argv "pdf/input" (listdir (fs w) "pdf/input") [] w0 = (inr mids, w1) ∧
    (∀ pdf, pdf ∈ mids → fs w' !! pdf = None) ∧
    (∀ name, name ∈ listdir (fs w) "pdf/input" → name ∈ argv →
             fs w' !! ("pdf/input/" +:+ name) = None) ∧
    (∀ path, path ∉ mids →
             (∀ name, name ∈ listdir (fs w) "pdf/input" → name ∈ argv →
                      path ≠ "pdf/input/" +:+ name) →
             path ≠ "pdf/output/" +:+ outfile_name (pat_id_of job) now →
             fs w' !! path = fs w !! path).
Proof.
  intros Hjob Hplain Hrun.
  apply main_run in Hrun
    as (job' & w0 & mids & w1 & merger & w2 & w3 & w4 &
        Hjob' & Hfs0 & Hloop & Happ & Hfs2 & Hfs3 & Hclean & Hfs').
  rewrite Hjob in Hjob'. injection Hjob' as <-.
  rewrite (merged_path_plain _ _ Hplain) in Hfs3.
  exists mids, w0, w1. split; [done|]. split; [done|].
  destruct (cleanup_effect _ _ _ _ Hclean) as (Hmids & Hnames & Hframe).
  rewrite Hfs'. split; [done|]. split.
  - intros name Hname Hmem. apply Hnames; [|done].
    by apply listdir_spec in Hname as [? _].
  - intros path Hpath Hname Hout.
    apply convert_loop_frame in Hloop as (new & Hnew & Hconv);
      [|apply listdir_valid].
    cbn [app] in Hnew. subst new.
    assert (fs w3 !! path = fs w !! path) as Hsame.
    { by rewrite Hfs3, lookup_insert_ne, Hfs2, (Hconv path Hpath), Hfs0. }
    rewrite Hframe, Hsame; [done..|].
    intros name Hlisted Hmem ->.
    apply listdir_spec in Hlisted as [Hvalid Hfile].
    change ("pdf/input" +:+ "/" +:+ name) with ("pdf/input/" +:+ name) in Hfile.
    rewrite lookup_delete_all, bool_decide_eq_false_2, Hsame in Hfile by done.
    apply (Hname name); [|done..].
    apply listdir_spec. split; [done|].
    by change ("pdf/input" +:+ "/" +:+ name) with ("pdf/input/" +:+ name).
Qed.

Lemma main_cleans_up_witness :
  Demo.mixed_argv !! 1%nat = Some "Doe,J" ∧
  plain_output (H := Demo.little_host) "Doe,J" Demo.stamp = true ∧
  @listdir Demo.little_host (fs Demo.mixed_world) "pdf/input" =
    ["y.tif"; "z.txt"; "x.tif"] ∧
  ∃ w',
    main (H := Demo.little_host) (H0 := Demo.byte_codec)
      Demo.mixed_argv Demo.stamp Demo.mixed_world = (inl SystemExit, w') ∧
    ∃ mids w0 w1,
      fs w0 = fs Demo.mixed_world ∧
      convert_loop (H := Demo.little_host) (H0 := Demo.byte_codec) Demo.mixed_argv
        "pdf/input"
        (@listdir Demo.little_host (fs Demo.mixed_world) "pdf/input") [] w0 =
      (inr mids, w1) ∧
      (∀ pdf, pdf ∈ mids → fs w' !! pdf = None) ∧
      (∀ name, name ∈ @listdir Demo.little_host (fs Demo.mixed_world) "pdf/input" →
               name ∈ Demo.mixed_argv →
               fs w' !! ("pdf/input/" +:+ name) = None) ∧
      (∀ path, path ∉ mids →
               (∀ name,
                  name ∈ @listdir Demo.little_host (fs Demo.mixed_world)
                           "pdf/input" →
                  name ∈ Demo.mixed_argv → path ≠ "pdf/input/" +:+ name) →
               path ≠ "pdf/output/" +:+
                      outfile_name (pat_id_of (H := Demo.little_host) "Doe,J")
                        Demo.stamp →
               fs w' !! path = fs Demo.mixed_world !! path).
Proof.
  split; [reflexivity|]. split; [reflexivity|]. split; [by vm_compute|].
  exists (main (H := Demo.little_host) (H0 := Demo.byte_codec)
            Demo.mixed_argv Demo.stamp Demo.mixed_world).2.
  assert (main (H := Demo.little_host) (H0 := Demo.byte_codec)
            Demo.mixed_argv Demo.stamp Demo.mixed_world =
          (inl SystemExit,
           (main (H := Demo.little_host) (H0 := Demo.byte_codec)
              Demo.mixed_argv Demo.stamp Demo.mixed_world).2)) as Hrun.
  { vm_compute. reflexivity. }
  split; [exact Hrun|].
  exact (main_cleans_up (H := Demo.little_host) (H1 := Demo.byte_codec)
           Demo.mixed_argv Demo.stamp Demo.mixed_world _ "Doe,J"
           eq_refl eq_refl Hrun).
Defined.

(** C2 as stated fails: a file of the input directory named like the
    program is deleted by the cleanup, although it is neither one of the
    file names the caller supplied, nor the job identifier, nor an
    intermediate PDF. *)
Lemma main_deletes_file_named_like_program :
  ∃ w' w1,
    main (H := Demo.little_host) (H0 := Demo.byte_codec)
      Demo.job_argv Demo.stamp Demo.job_world = (inl SystemExit, w') ∧
    convert_loop (H := Demo.little_host) (H0 := Demo.byte_codec) Demo.job_argv
      "pdf/input" (@listdir Demo.little_host (fs Demo.job_world) "pdf/input") []
      Demo.job_world = (inr ["pdf/input/scan.pdf"], w1) ∧
    PyStr.mem "tiff2pdf.py" (caller_filenames Demo.job_argv) = false ∧
    Demo.job_argv !! 1%nat = Some "scan.tif" ∧
    fs Demo.job_world !! "pdf/input/tiff2pdf.py" = Some [x23] ∧
    fs w' !! "pdf/input/tiff2pdf.py" = None.
Proof.
  eexists _, _. split; [vm_compute; reflexivity|].
  split; [vm_compute; reflexivity|]. by vm_compute.
Qed.

Lemma main_selects_over_argv `{Host} `{!HostLaws} `{Codec} argv now w w' :
  main argv now w = (inl SystemExit, w') →
  no_clobberb (listdir (fs w) "pdf/input") = true →
  ∃ w0 mids w1,
    fs w0 = fs w ∧
    convert_loop argv "pdf/input" (listdir (fs w) "pdf/input") [] w0 = (inr mids, w1) ∧
    mids = intermediate_of <$>
           List.filter (λ f, is_tiff_name f && accepted w ("pdf/input/" +:+ f) &&
                             PyStr.mem f argv)
             (listdir (fs w) "pdf/input").
Proof.
  intros Hrun Hclob.
  apply main_run in Hrun
    as (job & w0 & mids & w1 & merger & w2 & w3 & w4 &
        Hjob & Hfs0 & Hloop & _).
  exists w0, mids, w1. split; [done|]. split; [done|].
  apply (convert_loop_spec argv w) in Hloop;
    [done|apply listdir_valid|by apply no_clobberb_spec|].
  intros f _ _. by rewrite Hfs0.
Qed.

(** C10. The membership test of [main] ranges over the whole argument
    vector: the program name and the job identifier pass it like any file
    name.  So a signed TIFF named like the job identifier, or like the
    program, is converted, merged and deleted although the caller did not
    list it. *)
Theorem membership_ranges_over_argv :
  (∀ (H : Host) (HL : HostLaws) (C : Codec) argv now w w',
     main argv now w = (inl SystemExit, w') →
     no_clobberb (listdir (fs w) "pdf/input") = true →
     ∃ w0 mids w1,
       fs w0 = fs w ∧
       convert_loop argv "pdf/input" (listdir (fs w) "pdf/input") [] w0 =
         (inr mids, w1) ∧
       mids = intermediate_of <$>
              List.filter (λ f, is_tiff_name f && accepted w ("pdf/input/" +:+ f) &&
                                PyStr.mem f argv)
                (listdir (fs w) "pdf/input")) ∧
  (∀ argv name,
     argv !! 0%nat = Some name ∨ argv !! 1%nat = Some name →
     PyStr.mem name argv = true) ∧
  (PyStr.mem "scan.tif" (caller_filenames Demo.job_argv) = false ∧
   Demo.job_argv !! 1%nat = Some "scan.tif" ∧
   ∃ w' w1,
     main (H := Demo.little_host) (H0 := Demo.byte_codec)
       Demo.job_argv Demo.stamp Demo.job_world = (inl SystemExit, w') ∧
     convert_loop (H := Demo.little_host) (H0 := Demo.byte_codec) Demo.job_argv
       "pdf/input" (@listdir Demo.little_host (fs Demo.job_world) "pdf/input") []
       Demo.job_world = (inr ["pdf/input/scan.pdf"], w1) ∧
     fs w' !! merged_path (H := Demo.little_host) "scan.tif" Demo.stamp =
       Some (pdf_write (Codec := Demo.byte_codec) [x05; x06]) ∧
     fs Demo.job_world !! "pdf/input/scan.tif" = Some (Demo.tiff_le ++ [x05; x06]) ∧
     fs w' !! "pdf/input/scan.tif" = None) ∧
  (PyStr.mem "conv.tif" (caller_filenames Demo.prog_argv) = false ∧
   Demo.prog_argv !! 0%nat = Some "conv.tif" ∧
   ∃ w',
     main (H := Demo.little_host) (H0 := Demo.byte_codec)
       Demo.prog_argv Demo.stamp Demo.prog_world = (inl SystemExit, w') ∧
     fs w' !! merged_path (H := Demo.little_host) "job7" Demo.stamp =
       Some (pdf_write (Codec := Demo.byte_codec) [x09]) ∧
     fs w' !! "pdf/input/conv.tif" = None).
Proof.
  split; [|split; [|split]].
  - intros H HL C argv now w w'. apply main_selects_over_argv.
  - intros argv name Hpos. apply mem_spec.
    destruct Hpos as [Hpos|Hpos]; by eapply list_elem_of_lookup_2.
  - split; [done|]. split; [done|]. eexists _, _.
    split; [vm_compute; reflexivity|].
    split; [vm_compute; reflexivity|]. by vm_compute.
  - split; [done|]. split; [done|]. eexists.
    split; [vm_compute; reflexivity|]. by vm_compute.
Qed.

(** C9 on the code: two sources that differ by their extension only derive
    one and the same intermediate path, whatever their stem.  In the
    directory that holds [x.tiff] and [x.tif], both are converted, the second
    conversion overwrites the PDF of the first, and the cleanup, which
    removes that path twice, stops the run with a [FileNotFoundError]
    before any source is deleted. *)
Theorem twin_sources_share_one_intermediate :
  (∀ stem, PyStr.contains ".tif" stem = false →
           stem +:+ ".tif" ≠ stem +:+ ".tiff" ∧
           pdf_path_of (stem +:+ ".tif") = stem +:+ ".pdf" ∧
           pdf_path_of (stem +:+ ".tiff") = stem +:+ ".pdf") ∧
  "pdf/input/x.tiff" ≠ "pdf/input/x.tif" ∧
  pdf_path_of "pdf/input/x.tiff" = "pdf/input/x.pdf" ∧
  pdf_path_of "pdf/input/x.tif" = "pdf/input/x.pdf" ∧
  @listdir Demo.little_host (fs Demo.twin_world) "pdf/input" = ["x.tiff"; "x.tif"] ∧
  ∃ w1 w',
    convert_loop (H := Demo.little_host) (H0 := Demo.byte_codec) Demo.twin_argv
      "pdf/input" ["x.tiff"; "x.tif"] [] Demo.twin_world =
    (inr ["pdf/input/x.pdf"; "pdf/input/x.pdf"], w1) ∧
    main (H := Demo.little_host) (H0 := Demo.byte_codec)
      Demo.twin_argv Demo.stamp Demo.twin_world =
    (inl (FileNotFoundError "pdf/input/x.pdf"), w') ∧
    is_Some (fs w' !! "pdf/input/x.tif") ∧
    is_Some (fs w' !! "pdf/input/x.tiff").
Proof.
  split.
  { intros stem Hstem. split; [|split].
    - intros Heq. apply (f_equal String.length) in Heq.
      rewrite !string_length_app in Heq. cbn in Heq. lia.
    - by apply pdf_path_of_tif.
    - by apply pdf_path_of_tiff. }
  split; [done|]. split; [done|]. split; [done|]. split; [by vm_compute|].
  eexists _, _. split; [vm_compute; reflexivity|].
  split; [vm_compute; reflexivity|]. split; vm_compute; eauto.
Qed.

(** C5 on the code: with the two sources [x.tiff] (one page, 02) and
    [x.tif] (one page, 01), listed in this order and both selected, the
    merged output holds the page of [x.tif] twice instead of the page of
    [x.tiff] followed by the page of [x.tif]. *)
Theorem twin_sources_merge_one_page_twice :
  List.filter (selected (H := Demo.little_host) Demo.twin_argv Demo.twin_world)
    (@listdir Demo.little_host (fs Demo.twin_world) "pdf/input") =
    ["x.tiff"; "x.tif"] ∧
  image_frames (Codec := Demo.byte_codec) (Demo.tiff_le ++ [x02]) = Some [x02] ∧
  image_frames (Codec := Demo.byte_codec) (Demo.tiff_le ++ [x01]) = Some [x01] ∧
  ∃ r w',
    main (H := Demo.little_host) (H0 := Demo.byte_codec)
      Demo.twin_argv Demo.stamp Demo.twin_world = (r, w') ∧
    fs w' !! merged_path (H := Demo.little_host) "job7" Demo.stamp =
      Some (pdf_write (Codec := Demo.byte_codec) [x01; x01]) ∧
    pdf_write (Codec := Demo.byte_codec) [x01; x01] ≠
    pdf_write (Codec := Demo.byte_codec) ([x02] ++ [x01]).
Proof.
  split; [by vm_compute|]. split; [done|]. split; [done|].
  eexists _, _. split; [vm_compute; reflexivity|]. split; [by vm_compute|].
  vm_compute. discriminate.
Qed.

(** ** Page order of the merged output, when intermediate paths are distinct *)

Lemma append_all_pages `{Codec} mids : ∀ acc w merger w',
  append_all mids acc w = (inr merger, w') →
  ∃ pagess,
    Forall2 (λ pdf pages, ∃ content, fs w !! pdf = Some content ∧
                                     pdf_pages content = Some pages) mids pagess ∧
    merger = acc ++ concat pagess.
Proof.
  induction mids as [|pdf mids IH]; intros acc w merger w'; cbn [append_all].
  - intros [= <- _]. exists []. split; [constructor|]. by rewrite app_nil_r.
  - unfold merger_append, file_content. munfold. cbn [fs log].
    destruct (fs w !! pdf) as [content|] eqn:Hfile; [|discriminate].
    destruct (pdf_pages content) as [pages|] eqn:Hpages; [|discriminate].
    intros Hrest. apply IH in Hrest as (pagess & Hall & ->). cbn [fs] in Hall.
    exists (pages :: pagess). split; [constructor; eauto|].
    cbn [concat]. by rewrite <- app_assoc.
Qed.

Lemma merged_path_output `{Host} job now :
  PyStr.startswith (merged_path job now) "pdf/input/" = false.
Proof.
  unfold merged_path. rewrite (eq_refl : os_path_join "pdf" "output" = "pdf/output").
  unfold os_path_join.
  destruct (outfile_name (pat_id_of job) now) as [|c name]; [done|].
  cbn [PyStr.startswith]. destruct (Ascii.eqb_spec "/" c) as [<-|Hc]; done.
Qed.

Lemma merged_pages_of_sources `{Codec} `{!CodecLaws}
    (files0 files1 : gmap string (list byte)) sources :
  ∀ pagess,
    Forall (λ f, PyStr.endswith (intermediate_of f) ".pdf" = true) sources →
    Forall (λ f, ∃ first rest out,
              pages_of files0 ("pdf/input/" +:+ f) = first :: rest ∧
              image_save (intermediate_of f) first rest = Some out ∧
              files1 !! intermediate_of f = Some out) sources →
    Forall2 (λ pdf pages, ∃ content, files1 !! pdf = Some content ∧
                                     pdf_pages content = Some pages)
      (intermediate_of <$> sources) pagess →
    pagess = (λ f, pages_of files0 ("pdf/input/" +:+ f)) <$> sources.
Proof.
  induction sources as [|f sources IH]; intros pagess Hpdf Hwritten Hread.
  - by apply Forall2_nil_inv_l in Hread as ->.
  - rewrite fmap_cons in Hread.
    apply Forall2_cons_inv_l in Hread
      as (pages & pagess' & (content & Hfile & Hpages) & Hread & ->).
    apply Forall_cons in Hpdf as [Hext Hpdf].
    apply Forall_cons in Hwritten
      as [(first & rest & out & Hsrc & Hsave & Hout) Hwritten].
    rewrite fmap_cons, <- (IH pagess') by done. f_equal.
    rewrite Hout in Hfile. injection Hfile as <-.
    rewrite (saved_pages _ _ _ _ Hext Hsave) in Hpages.
    injection Hpages as <-. done.
Qed.

(** When the run ends with [quit()], no intermediate path is a listed TIFF
    name, the selected sources have pairwise distinct intermediate paths and
    these are [.pdf] names, the merged output is the document made of the
    pages of the selected sources, source after source in listing order. *)
Lemma main_merges_in_listing_order `{Host} `{!HostLaws} `{Codec} `{!CodecLaws}
    argv now w w' :
  main argv now w = (inl SystemExit, w') →
  no_clobberb (listdir (fs w) "pdf/input") = true →
  NoDup (intermediate_of <$>
         List.filter (selected argv w) (listdir (fs w) "pdf/input")) →
  Forall (λ f, PyStr.endswith (intermediate_of f) ".pdf" = true)
    (List.filter (selected argv w) (listdir (fs w) "pdf/input")) →
  ∃ job,
    argv !! 1%nat = Some job ∧
    fs w' !! merged_path job now =
    Some (pdf_write
            (concat ((λ f, pages_of (fs w) ("pdf/input/" +:+ f)) <$>
                     List.filter (selected argv w) (listdir (fs w) "pdf/input")))).
Proof.
  intros Hrun Hclob Hdup Hpdf.
  apply main_run in Hrun
    as (job & w0 & mids & w1 & merger & w2 & w3 & w4 &
        Hjob & Hfs0 & Hloop & Happ & Hfs2 & Hfs3 & Hclean & Hfs').
  exists job. split; [done|].
  set (listing := listdir (fs w) "pdf/input") in *.
  set (sources := List.filter (selected argv w) listing) in *.
  assert (∀ f, f ∈ listing → is_tiff_name f = true →
               fs w0 !! ("pdf/input/" +:+ f) = fs w !! ("pdf/input/" +:+ f))
    as Hsame by (intros; by rewrite Hfs0).
  pose proof (convert_loop_spec argv w listing [] w0 mids w1
                (listdir_valid _ _) (no_clobberb_spec _ Hclob) Hsame Hloop) as Hmids.
  pose proof (convert_loop_writes argv w listing [] w0 mids w1
                (listdir_valid _ _) (no_clobberb_spec _ Hclob) Hsame Hdup Hloop)
    as Hwritten.
  cbn [app] in Hmids. fold sources in Hmids, Hwritten.
  change (mids = intermediate_of <$> sources) in Hmids.
  apply append_all_pages in Happ as (pagess & Hread & ->). cbn [app] in Hfs3.
  rewrite Hmids in Hread.
  rewrite (merged_pages_of_sources (fs w) (fs w1) sources pagess Hpdf Hwritten Hread)
    in Hfs3.
  destruct (cleanup_effect _ _ _ _ Hclean) as (_ & _ & Hframe).
  rewrite Hfs', Hframe, Hfs3; [apply lookup_insert_eq| |].
  - rewrite Hmids. intros (f & Heq & _)%list_elem_of_fmap.
    pose proof (intermediate_of_input f) as Hin.
    rewrite <- Heq, merged_path_output in Hin. done.
  - intros name _ _ Heq.
    pose proof (startswith_app "pdf/input/" name) as Hin.
    rewrite <- Heq, merged_path_output in Hin. done.
Qed.

#[export] Instance demo_codec_laws : @CodecLaws Demo.byte_codec.
Proof.
  constructor. intros path first rest out Hext.
  cbn [image_save pdf_pages Demo.byte_codec]. rewrite Hext.
  by intros [= <-].
Qed.

(** The run on the mixed directory meets these conditions: its merged
    output holds the two pages of its one selected source. *)
Example mixed_run_merges_in_order :
  ∃ w' job,
    main (H := Demo.little_host) (H0 := Demo.byte_codec)
      Demo.mixed_argv Demo.stamp Demo.mixed_world = (inl SystemExit, w') ∧
    Demo.mixed_argv !! 1%nat = Some job ∧
    fs w' !! merged_path (H := Demo.little_host) job Demo.stamp =
    Some (pdf_write (Codec := Demo.byte_codec)
            (concat ((λ f, pages_of (H := Demo.byte_codec)
                             (fs Demo.mixed_world) ("pdf/input/" +:+ f)) <$>
                     List.filter (selected (H := Demo.little_host)
                                    Demo.mixed_argv Demo.mixed_world)
                       (@listdir Demo.little_host (fs Demo.mixed_world)
                          "pdf/input")))).
Proof.
  assert (main (H := Demo.little_host) (H0 := Demo.byte_codec)
            Demo.mixed_argv Demo.stamp Demo.mixed_world =
          (inl SystemExit,
           (main (H := Demo.little_host) (H0 := Demo.byte_codec)
              Demo.mixed_argv Demo.stamp Demo.mixed_world).2)) as Hrun.
  { vm_compute. reflexivity. }
  destruct (main_merges_in_listing_order (H := Demo.little_host)
              (H1 := Demo.byte_codec) Demo.mixed_argv Demo.stamp
              Demo.mixed_world _ Hrun) as (job & Hjob & Hout).
  - reflexivity.
  - vm_compute. repeat constructor. apply not_elem_of_nil.
  - vm_compute. repeat constructor.
  - eauto.
Qed.

(** ** Further facts *)

(** The converted files come in the order of the listing, whatever the
    order of the names on the command line. *)
Example listing_order_not_argument_order :
  ∃ w',
    convert_loop (H := Demo.little_host) (H0 := Demo.byte_codec)
      Demo.ordered_argv (os_path_join "pdf" "input") ["b.tif"; "a.tif"] []
      Demo.ordered_world =
    (inr ["pdf/input/b.pdf"; "pdf/input/a.pdf"], w').
Proof. eexists. vm_compute. reflexivity. Qed.

Lemma string_app_inv_tail a : ∀ b c, a +:+ c = b +:+ c → a = b.
Proof.
  induction a as [|x a IH]; intros [|y b] c Heq; [done|..].
  - apply (f_equal String.length) in Heq.
    change (String y b +:+ c) with (String y (b +:+ c)) in Heq.
    change ("" +:+ c) with c in Heq. cbn in Heq. rewrite string_length_app in Heq. lia.
  - apply (f_equal String.length) in Heq.
    change (String x a +:+ c) with (String x (a +:+ c)) in Heq.
    change ("" +:+ c) with c in Heq. cbn in Heq. rewrite string_length_app in Heq. lia.
  - change (String x (a +:+ c) = String y (b +:+ c)) in Heq.
    injection Heq as -> Heq. f_equal. by eapply IH.
Qed.

(** Sources of one and the same extension have distinct intermediate paths
    (when [.tif] occurs in them only as the extension); only the two
    extensions of one stem collide. *)
Lemma intermediate_paths_distinct stem1 stem2 ext :
  ext = ".tif" ∨ ext = ".tiff" →
  PyStr.contains ".tif" stem1 = false →
  PyStr.contains ".tif" stem2 = false →
  pdf_path_of (stem1 +:+ ext) = pdf_path_of (stem2 +:+ ext) →
  stem1 = stem2.
Proof.
  intros [-> | ->] H1 H2.
  - rewrite !pdf_path_of_tif by done. apply string_app_inv_tail.
  - rewrite !pdf_path_of_tiff by done. apply string_app_inv_tail.
Qed.

Lemma twin_extensions_collide stem :
  PyStr.contains ".tif" stem = false →
  pdf_path_of (stem +:+ ".tif") = pdf_path_of (stem +:+ ".tiff").
Proof. intros Hstem. by rewrite pdf_path_of_tif, pdf_path_of_tiff. Qed.

(** On a big-endian host the other signature is the accepted one. *)
Example big_endian_host_signature :
  (check_hex (H := Demo.big_host) "pdf/input/m.tif"
     (Demo.world_of [("pdf/input/m.tif", Demo.tiff_be ++ [x01])])).1 = inr true ∧
  (check_hex (H := Demo.big_host) "pdf/input/i.tif"
     (Demo.world_of [("pdf/input/i.tif", Demo.tiff_le ++ [x01])])).1 = inr false ∧
  (check_hex (H := Demo.little_host) "pdf/input/m.tif"
     (Demo.world_of [("pdf/input/m.tif", Demo.tiff_be ++ [x01])])).1 = inr false.
Proof. repeat split; vm_compute; reflexivity. Qed.

(** A file of 1004 bytes is read up to its 352nd byte, in 11 reads; a file of
    40 bytes is read whole, in 3 reads, the last of which returns nothing. *)
Example reads_of_long_and_short_files :
  let long := Demo.world_of [("pdf/input/l.tif", Demo.tiff_le ++ repeat x00 1000)] in
  let short := Demo.world_of [("pdf/input/s.tif", Demo.tiff_le ++ repeat x00 36)] in
  bytes_read (log (check_hex (H := Demo.little_host) "pdf/input/l.tif" long).2) = 352 ∧
  read_calls (log (check_hex (H := Demo.little_host) "pdf/input/l.tif" long).2) = 11 ∧
  bytes_read (log (check_hex (H := Demo.little_host) "pdf/input/s.tif" short).2) = 40 ∧
  read_calls (log (check_hex (H := Demo.little_host) "pdf/input/s.tif" short).2) = 3.
Proof. repeat split; vm_compute; reflexivity. Qed.

(** * Further properties of the code *)

(** ** [check_hex] *)

(** X1. The verdict of [check_hex] is that of the content of the file: the
    path, its extension and the rest of the world play no part. *)
Theorem check_hex_verdict_by_content `{Host} path1 path2 w1 w2 content :
  fs w1 !! path1 = Some content →
  fs w2 !! path2 = Some content →
  (check_hex path1 w1).1 = (check_hex path2 w2).1.
Proof.
  intros H1 H2. by rewrite (check_hex_run _ _ _ H1), (check_hex_run _ _ _ H2).
Qed.

Lemma check_hex_verdict_by_content_witness :
  fs Demo.mixed_world !! "pdf/input/x.tif" = Some (Demo.tiff_le ++ [x01; x02]) ∧
  fs (Demo.world_of [("copy.bin", Demo.tiff_le ++ [x01; x02])]) !! "copy.bin" =
    Some (Demo.tiff_le ++ [x01; x02]) ∧
  (check_hex (H := Demo.little_host) "pdf/input/x.tif" Demo.mixed_world).1 =
  (check_hex (H := Demo.little_host) "copy.bin"
     (Demo.world_of [("copy.bin", Demo.tiff_le ++ [x01; x02])])).1.
Proof.
  split; [reflexivity|]. split; [reflexivity|].
  apply (check_hex_verdict_by_content (H := Demo.little_host)
           "pdf/input/x.tif" "copy.bin" Demo.mixed_world
           (Demo.world_of [("copy.bin", Demo.tiff_le ++ [x01; x02])])
           (Demo.tiff_le ++ [x01; x02])); reflexivity.
Defined.

(** X2. [check_hex] never changes a file, whether it returns or raises:
    every path holds after the call what it held before. *)
Theorem check_hex_keeps_files `{Host} path w other :
  fs (check_hex path w).2 !! other = fs w !! other.
Proof. by rewrite check_hex_fs. Qed.

(** ** [tiff_to_pdf] *)

(** X3. A converted file, appended to the merger, contributes its frames,
    each turned to RGB, in their order on disk: one page per frame.  The
    conversion writes the intermediate file and no other. *)
Theorem tiff_to_pdf_then_append `{Codec} `{!CodecLaws}
    path w content frames pdf w1 merger :
  fs w !! path = Some content →
  image_frames content = Some frames →
  tiff_to_pdf path w = (inr pdf, w1) →
  PyStr.endswith pdf ".pdf" = true →
  (∀ other, other ≠ pdf → fs w1 !! other = fs w !! other) ∧
  ∃ w2, merger_append pdf merger w1 =
          (inr (merger ++ (convert_rgb <$> frames)), w2) ∧
        fs w2 = fs w1.
Proof.
  intros Hfile Hframes Hconv Hext.
  pose proof (tiff_to_pdf_returns _ _ _ _ Hconv) as [-> _].
  apply tiff_to_pdf_returns_pages in Hconv
    as (first & rest & out & Hpages & Hsave & Hfs1).
  unfold pages_of in Hpages. rewrite Hfile, Hframes in Hpages.
  split.
  - intros other Hother. by rewrite Hfs1, lookup_insert_ne.
  - unfold merger_append, file_content. munfold. cbn [fs log].
    rewrite Hfs1, lookup_insert_eq, (saved_pages _ _ _ _ Hext Hsave), Hpages.
    eexists. split; reflexivity.
Qed.

Lemma tiff_to_pdf_then_append_witness :
  ∃ w1,
    fs Demo.mixed_world !! "pdf/input/x.tif" = Some (Demo.tiff_le ++ [x01; x02]) ∧
    image_frames (Codec := Demo.byte_codec) (Demo.tiff_le ++ [x01; x02]) =
      Some [x01; x02] ∧
    tiff_to_pdf (H := Demo.byte_codec) "pdf/input/x.tif" Demo.mixed_world =
      (inr "pdf/input/x.pdf", w1) ∧
    PyStr.endswith "pdf/input/x.pdf" ".pdf" = true ∧
    (∀ other, other ≠ "pdf/input/x.pdf" →
              fs w1 !! other = fs Demo.mixed_world !! other) ∧
    ∃ w2, merger_append (H := Demo.byte_codec) "pdf/input/x.pdf" [x09] w1 =
            (inr ([x09] ++ (convert_rgb (Codec := Demo.byte_codec) <$> [x01; x02])),
             w2) ∧
          fs w2 = fs w1.
Proof.
  exists (tiff_to_pdf (H := Demo.byte_codec) "pdf/input/x.tif" Demo.mixed_world).2.
  assert (tiff_to_pdf (H := Demo.byte_codec) "pdf/input/x.tif" Demo.mixed_world =
          (inr "pdf/input/x.pdf",
           (tiff_to_pdf (H := Demo.byte_codec) "pdf/input/x.tif"
              Demo.mixed_world).2)) as Hrun.
  { vm_compute. reflexivity. }
  split; [reflexivity|]. split; [reflexivity|]. split; [exact Hrun|].
  split; [reflexivity|].
  exact (tiff_to_pdf_then_append (H := Demo.byte_codec) "pdf/input/x.tif"
           Demo.mixed_world (Demo.tiff_le ++ [x01; x02]) [x01; x02]
           "pdf/input/x.pdf" _ [x09] eq_refl eq_refl Hrun eq_refl).
Defined.



(** ** [main]: the job identifier and the output path *)

(** X6. Without a job identifier ([sys.argv] of fewer than two entries)
    [main] raises [IndexError] at once: nothing is printed, listed, or
    touched. *)
Theorem main_without_job_identifier `{Host} `{Codec} argv now w :
  argv !! 1%nat = None → main argv now w = (inl IndexError, w).
Proof. intros Hjob. unfold main. rewrite Hjob. done. Qed.

Lemma main_without_job_identifier_witness :
  ["tiff2pdf.py"] !! 1%nat = (None : option string) ∧
  main (H := Demo.little_host) (H0 := Demo.byte_codec) ["tiff2pdf.py"] Demo.stamp
    Demo.mixed_world = (inl IndexError, Demo.mixed_world).
Proof.
  split; [reflexivity|].
  apply (main_without_job_identifier (H := Demo.little_host)
           (H0 := Demo.byte_codec) ["tiff2pdf.py"]).
  reflexivity.
Defined.

Lemma replace_comma_cons c s :
  PyStr.replace_from "," "_" 0 (String c s) =
  if Ascii.eqb "," c then String "_" (PyStr.replace_from "," "_" 0 s)
  else String c (PyStr.replace_from "," "_" 0 s).
Proof.
  cbn [PyStr.replace_from PyStr.startswith].
  by destruct (Ascii.eqb "," c).
Qed.

Lemma replace_comma_no_comma s :
  PyStr.contains "," (PyStr.replace_from "," "_" 0 s) = false.
Proof.
  induction s as [|c s IH]; [done|]. rewrite replace_comma_cons.
  destruct (Ascii.eqb "," c) eqn:Hc; cbn [PyStr.contains PyStr.startswith].
  - by rewrite IH.
  - by rewrite Hc, IH.
Qed.

Lemma replace_comma_length s :
  String.length (PyStr.replace_from "," "_" 0 s) = String.length s.
Proof.
  induction s as [|c s IH]; [done|]. rewrite replace_comma_cons.
  destruct (Ascii.eqb "," c); cbn [String.length]; by rewrite IH.
Qed.

(** X7. The job identifier enters the output name without any comma:
    [main] takes the identifier as [str.lower()] returns it and replaces
    every comma by an underscore, which changes neither its length nor, when
    it holds no comma, the identifier itself. *)
Theorem pat_id_without_comma `{Host} job :
  PyStr.contains "," (pat_id_of job) = false ∧
  String.length (pat_id_of job) = String.length (str_lower job) ∧
  (PyStr.contains "," (str_lower job) = false → pat_id_of job = str_lower job).
Proof.
  unfold pat_id_of, PyStr.replace. split; [|split].
  - apply replace_comma_no_comma.
  - apply replace_comma_length.
  - apply replace_from_absent.
Qed.

(** ** [main]: the one call of [merger.write] *)

Lemma merger_writes_app evs1 evs2 :
  merger_writes (evs1 ++ evs2) = merger_writes evs1 ++ merger_writes evs2.
Proof.
  induction evs1 as [|e evs1 IH]; [done|].
  destruct e; cbn; by rewrite ?IH.
Qed.

Lemma no_merger_write_bind {A B} (m : M A) (k : A → M B) :
  no_merger_write m → (∀ a, no_merger_write (k a)) → no_merger_write (m ≫= k).
Proof.
  intros Hm Hk w. unfold mbind, M_bind.
  destruct (Hm w) as (evs1 & Hlog1 & Hnone1).
  destruct (m w) as [[e|a] w1]; cbn [snd] in Hlog1; [by exists evs1|].
  destruct (Hk a w1) as (evs2 & Hlog2 & Hnone2).
  exists (evs1 ++ evs2). split.
  - by rewrite Hlog2, Hlog1, app_assoc.
  - by rewrite merger_writes_app, Hnone1, Hnone2.
Qed.

Lemma no_merger_write_ret {A} (a : A) : no_merger_write (mret a).
Proof. intros w. exists []. by rewrite app_nil_r. Qed.

Lemma no_merger_write_print line : no_merger_write (print line).
Proof. intros w. by exists [EvPrint line]. Qed.

Lemma no_merger_write_check_hex `{Host} path : no_merger_write (check_hex path).
Proof.
  intros w. destruct (fs w !! path) as [content|] eqn:Hfile.
  - rewrite (check_hex_run _ _ _ Hfile). eexists. split; [reflexivity|].
    unfold check_hex_events. cbn [merger_writes]. rewrite merger_writes_app.
    replace (merger_writes (EvRead path <$> _)) with (@nil string)
      by (induction (chunk_sizes _ _ _); done).
    by destruct (signature_test _ _).
  - rewrite (check_hex_missing _ _ Hfile). exists []. by rewrite app_nil_r.
Qed.

Lemma no_merger_write_tiff_to_pdf `{Codec} path : no_merger_write (tiff_to_pdf path).
Proof.
  intros w. rewrite tiff_to_pdf_run.
  destruct (fs w !! path) as [content|]; [|by eexists].
  destruct (image_frames content) as [[|first rest]|]; try by eexists.
  destruct (image_save _ _ _); by eexists.
Qed.

Lemma no_merger_write_convert_loop `{Host} `{Codec} pat_files input_path listing :
  ∀ acc, no_merger_write (convert_loop pat_files input_path listing acc).
Proof.
  induction listing as [|file listing IH]; intros acc; cbn [convert_loop].
  - apply no_merger_write_ret.
  - destruct (_ || _); [|apply IH].
    apply no_merger_write_bind; [apply no_merger_write_check_hex|]. intros signed.
    destruct (_ && _); [|apply IH].
    apply no_merger_write_bind; [apply no_merger_write_tiff_to_pdf|].
    intros pdf. apply IH.
Qed.

Lemma no_merger_write_append_all `{Codec} mids :
  ∀ acc, no_merger_write (append_all mids acc).
Proof.
  induction mids as [|pdf mids IH]; intros acc; cbn [append_all].
  - apply no_merger_write_ret.
  - apply no_merger_write_bind; [|intros merger; apply IH].
    intros w. unfold merger_append, file_content. munfold. cbn [fs log].
    destruct (fs w !! pdf) as [content|]; [|by exists [EvAppend pdf]].
    destruct (pdf_pages content); by exists [EvAppend pdf].
Qed.

Lemma no_merger_write_os_remove path : no_merger_write (os_remove path).
Proof.
  intros w. unfold os_remove.
  destruct (fs w !! path); [by exists [EvRemove path]|].
  exists []. by rewrite app_nil_r.
Qed.

Lemma no_merger_write_remove_middle_files mids :
  no_merger_write (remove_middle_files mids).
Proof.
  induction mids as [|file mids IH]; cbn [remove_middle_files].
  - apply no_merger_write_ret.
  - apply no_merger_write_bind; [apply no_merger_write_print|]. intros _.
    apply no_merger_write_bind; [apply no_merger_write_os_remove|]. intros _.
    apply IH.
Qed.

Lemma no_merger_write_remove_origin_files pat_files input_path listing :
  no_merger_write (remove_origin_files pat_files input_path listing).
Proof.
  induction listing as [|file listing IH]; cbn [remove_origin_files].
  - apply no_merger_write_ret.
  - destruct (PyStr.mem file pat_files); [|apply IH].
    apply no_merger_write_bind; [apply no_merger_write_print|]. intros _.
    apply no_merger_write_bind; [apply no_merger_write_os_remove|]. intros _.
    apply IH.
Qed.

Lemma no_merger_write_cleanup `{Host} pat_files input_path mids :
  no_merger_write (cleanup pat_files input_path mids).
Proof.
  unfold cleanup.
  apply no_merger_write_bind; [apply no_merger_write_remove_middle_files|].
  intros _.
  apply no_merger_write_bind; [by intros w; exists [EvListdir input_path]|].
  intros listing. apply no_merger_write_remove_origin_files.
Qed.

(** The stages of a run that ends with [quit()], with the worlds they go
    through. *)
Lemma main_stages `{Host} `{Codec} argv now w w' job :
  argv !! 1%nat = Some job →
  main argv now w = (inl SystemExit, w') →
  ∃ mids w1 merger w2 w4,
    convert_loop argv "pdf/input" (listdir (fs w) "pdf/input") [] (launched w) =
      (inr mids, w1) ∧
    append_all mids [] w1 = (inr merger, w2) ∧
    cleanup argv "pdf/input" mids
      (World (<[merged_path job now := pdf_write merger]> (fs w2))
         ((log w2 ++ [EvWrite (merged_path job now)]) ++
          [EvPrint (outfile_name (pat_id_of job) now +:+
                    " created succesfully in output path.")])) = (inr tt, w4) ∧
    w' = World (fs w4)
           ((log w4 ++ [EvPrint "Exiting with Error Code 0:"]) ++
            [EvPrint "~~~> Closing TIFF to PDF Converter. Merger Success!"]).
Proof.
  intros Hjob. unfold main. rewrite Hjob, input_path_eq. intros Hrun.
  unfold mbind at 1, M_bind at 1, mret at 1, M_ret at 1 in Hrun.
  unfold print at 1, emit at 1, mbind at 1, M_bind at 1 in Hrun.
  unfold os_listdir at 1, mbind at 1, M_bind at 1 in Hrun. cbn [fs log] in Hrun.
  apply bind_exit_inv in Hrun as (mids & w1 & Hloop & Hrun);
    [|apply no_exit_convert_loop].
  apply bind_exit_inv in Hrun as (merger & w2 & Happ & Hrun);
    [|apply no_exit_append_all].
  unfold merger_write, write_file in Hrun. munfold. cbn [fs log] in Hrun.
  change (os_path_join (os_path_join "pdf" "output")
            (outfile_name (pat_id_of job) now))
    with (merged_path job now) in Hrun.
  match type of Hrun with
  | context [cleanup _ _ _ ?w] => set (w3 := w) in *
  end.
  destruct (cleanup argv "pdf/input" mids w3) as [[e|[]] w4] eqn:Hclean.
  { injection Hrun as -> ->. by destruct (no_exit_cleanup _ _ _ _ _ Hclean). }
  injection Hrun as <-.
  by exists mids, w1, merger, w2, w4.
Qed.

Lemma outfile_name_absolute pat_id now :
  PyStr.startswith (outfile_name pat_id now) "/" = PyStr.startswith pat_id "/".
Proof.
  unfold outfile_name. destruct pat_id as [|c pat_id]; [done|].
  change (String c pat_id +:+ ?t) with (String c (pat_id +:+ t)).
  cbn [PyStr.startswith]. by rewrite !andb_true_r.
Qed.

(** X8. A run that ends with [quit()] has called [merger.write] once, on
    the path that [os.path.join] makes of [pdf/output] and of the name
    [<pat_id>_merged_<time stamp>.pdf], and has announced that name.  The
    path is [pdf/output/<name>], unless the identifier, as lower-cased,
    begins with a slash: [os.path.join] then drops [pdf/output] and the
    path is the absolute [<name>]. *)
Theorem main_writes_to_joined_path `{Host} `{Codec} argv now w w' job :
  argv !! 1%nat = Some job →
  main argv now w = (inl SystemExit, w') →
  ∃ evs,
    log w' = log w ++ evs ∧
    merger_writes evs =
      [if PyStr.startswith (pat_id_of job) "/"
       then pat_id_of job +:+ "_merged_" +:+ now +:+ ".pdf"
       else "pdf/output/" +:+ pat_id_of job +:+ "_merged_" +:+ now +:+ ".pdf"] ∧
    EvPrint ((pat_id_of job +:+ "_merged_" +:+ now +:+ ".pdf") +:+
             " created succesfully in output path.") ∈ evs.
Proof.
  intros Hjob Hrun.
  apply (main_stages _ _ _ _ _ Hjob) in Hrun
    as (mids & w1 & merger & w2 & w4 & Hloop & Happ & Hclean & ->).
  destruct (no_merger_write_convert_loop argv "pdf/input"
              (listdir (fs w) "pdf/input") [] (launched w))
    as (evs1 & Hlog1 & Hnone1).
  rewrite Hloop in Hlog1. cbn [snd launched log] in Hlog1.
  destruct (no_merger_write_append_all mids [] w1) as (evs2 & Hlog2 & Hnone2).
  rewrite Happ in Hlog2. cbn [snd] in Hlog2.
  match type of Hclean with
  | cleanup _ _ _ ?w = _ =>
      destruct (no_merger_write_cleanup argv "pdf/input" mids w)
        as (evs4 & Hlog4 & Hnone4)
  end.
  rewrite Hclean in Hlog4. cbn [snd log] in Hlog4.
  cbn [log]. rewrite Hlog4, Hlog2, Hlog1, <- !app_assoc. cbn [app].
  eexists. split; [reflexivity|]. split.
  - cbn [merger_writes]. rewrite !merger_writes_app, Hnone1, Hnone2.
    cbn [merger_writes app]. rewrite !merger_writes_app, Hnone4.
    cbn [merger_writes app]. f_equal. unfold merged_path.
    change (os_path_join "pdf" "output") with "pdf/output".
    unfold os_path_join. rewrite outfile_name_absolute.
    by destruct (PyStr.startswith (pat_id_of job) "/").
  - do 2 apply list_elem_of_further.
    rewrite !elem_of_app. right. right. apply list_elem_of_further.
    apply list_elem_of_here.
Qed.

Lemma main_writes_to_joined_path_witness :
  Demo.mixed_argv !! 1%nat = Some "Doe,J" ∧
  pat_id_of (H := Demo.little_host) "Doe,J" = "doe_j" ∧
  ∃ w',
    main (H := Demo.little_host) (H0 := Demo.byte_codec)
      Demo.mixed_argv Demo.stamp Demo.mixed_world = (inl SystemExit, w') ∧
    ∃ evs,
      log w' = log Demo.mixed_world ++ evs ∧
      merger_writes evs =
        [if PyStr.startswith (pat_id_of (H := Demo.little_host) "Doe,J") "/"
         then pat_id_of (H := Demo.little_host) "Doe,J" +:+ "_merged_" +:+
              Demo.stamp +:+ ".pdf"
         else "pdf/output/" +:+ pat_id_of (H := Demo.little_host) "Doe,J" +:+
              "_merged_" +:+ Demo.stamp +:+ ".pdf"] ∧
      EvPrint ((pat_id_of (H := Demo.little_host) "Doe,J" +:+ "_merged_" +:+
                Demo.stamp +:+ ".pdf") +:+
               " created succesfully in output path.") ∈ evs.
Proof.
  split; [reflexivity|]. split; [reflexivity|].
  exists (main (H := Demo.little_host) (H0 := Demo.byte_codec)
            Demo.mixed_argv Demo.stamp Demo.mixed_world).2.
  assert (main (H := Demo.little_host) (H0 := Demo.byte_codec)
            Demo.mixed_argv Demo.stamp Demo.mixed_world =
          (inl SystemExit,
           (main (H := Demo.little_host) (H0 := Demo.byte_codec)
              Demo.mixed_argv Demo.stamp Demo.mixed_world).2)) as Hrun.
  { vm_compute. reflexivity. }
  split; [exact Hrun|].
  exact (main_writes_to_joined_path (H := Demo.little_host)
           (H0 := Demo.byte_codec) Demo.mixed_argv Demo.stamp Demo.mixed_world
           _ "Doe,J" eq_refl Hrun).
Defined.

(** ** [main]: the stages *)

(** X9. After a run that ends with [quit()], the merged document is there,
    in [pdf/output], under the name made of the job identifier without
    comma, [_merged_], the time stamp and [.pdf] (a plain file name): it
    holds, in the order of the conversions, the pages of each intermediate
    file as the merger read them.  The cleanup has not removed it. *)
Theorem main_writes_merged_output `{Host} `{!HostLaws} `{Codec}
    argv now w w' job :
  argv !! 1%nat = Some job →
  plain_output job now = true →
  main argv now w = (inl SystemExit, w') →
  ∃ mids w0 w1 pagess,
    fs w0 = fs w ∧
    convert_loop argv "pdf/input" (listdir (fs w) "pdf/input") [] w0 = (inr mids, w1) ∧
    Forall2 (λ pdf pages, ∃ content, fs w1 !! pdf = Some content ∧
                                     pdf_pages content = Some pages) mids pagess ∧
    fs w' !! ("pdf/output/" +:+ pat_id_of job +:+ "_merged_" +:+ now +:+ ".pdf") =
      Some (pdf_write (concat pagess)).
Proof.
  intros Hjob Hplain Hrun.
  apply main_run in Hrun
    as (job' & w0 & mids & w1 & merger & w2 & w3 & w4 &
        Hjob' & Hfs0 & Hloop & Happ & Hfs2 & Hfs3 & Hclean & Hfs').
  rewrite Hjob in Hjob'. injection Hjob' as <-.
  apply append_all_pages in Happ as (pagess & Hread & ->). cbn [app] in Hfs3.
  exists mids, w0, w1, pagess. do 3 (split; [done|]).
  destruct (cleanup_effect _ _ _ _ Hclean) as (_ & _ & Hframe).
  change (pat_id_of job +:+ "_merged_" +:+ now +:+ ".pdf")
    with (outfile_name (pat_id_of job) now).
  rewrite <- (merged_path_plain _ _ Hplain).
  rewrite Hfs', Hframe, Hfs3; [apply lookup_insert_eq| |].
  - apply convert_loop_new_in_input in Hloop as (new & -> & Hnew);
      [|apply listdir_valid].
    intros Hin. rewrite Forall_forall in Hnew. apply Hnew in Hin.
    by rewrite merged_path_output in Hin.
  - intros name _ _ Heq.
    pose proof (startswith_app "pdf/input/" name) as Hin.
    rewrite <- Heq, merged_path_output in Hin. done.
Qed.

Lemma main_writes_merged_output_witness :
  Demo.mixed_argv !! 1%nat = Some "Doe,J" ∧
  plain_output (H := Demo.little_host) "Doe,J" Demo.stamp = true ∧
  ∃ w',
    main (H := Demo.little_host) (H0 := Demo.byte_codec)
      Demo.mixed_argv Demo.stamp Demo.mixed_world = (inl SystemExit, w') ∧
    ∃ mids w0 w1 pagess,
      fs w0 = fs Demo.mixed_world ∧
      convert_loop (H := Demo.little_host) (H0 := Demo.byte_codec) Demo.mixed_argv
        "pdf/input" (@listdir Demo.little_host (fs Demo.mixed_world) "pdf/input")
        [] w0 = (inr mids, w1) ∧
      Forall2 (λ pdf pages, ∃ content,
                 fs w1 !! pdf = Some content ∧
                 pdf_pages (Codec := Demo.byte_codec) content = Some pages)
        mids pagess ∧
      fs w' !! ("pdf/output/" +:+ pat_id_of (H := Demo.little_host) "Doe,J" +:+
                "_merged_" +:+ Demo.stamp +:+ ".pdf") =
        Some (pdf_write (Codec := Demo.byte_codec) (concat pagess)).
Proof.
  split; [reflexivity|]. split; [reflexivity|].
  exists (main (H := Demo.little_host) (H0 := Demo.byte_codec)
            Demo.mixed_argv Demo.stamp Demo.mixed_world).2.
  assert (main (H := Demo.little_host) (H0 := Demo.byte_codec)
            Demo.mixed_argv Demo.stamp Demo.mixed_world =
          (inl SystemExit,
           (main (H := Demo.little_host) (H0 := Demo.byte_codec)
              Demo.mixed_argv Demo.stamp Demo.mixed_world).2)) as Hrun.
  { vm_compute. reflexivity. }
  split; [exact Hrun|].
  exact (main_writes_merged_output (H := Demo.little_host) (H1 := Demo.byte_codec)
           Demo.mixed_argv Demo.stamp Demo.mixed_world _ "Doe,J"
           eq_refl eq_refl Hrun).
Defined.




(** ** Cleanup: when it succeeds and what it can do *)

Lemma remove_middle_files_cons file mids w :
  remove_middle_files (file :: mids) w =
  match fs w !! file with
  | Some _ =>
      remove_middle_files mids
        (World (delete file (fs w))
           ((log w ++ [EvPrint ("Removing " +:+ file +:+ ".")]) ++ [EvRemove file]))
  | None =>
      (inl (FileNotFoundError file),
       World (fs w) (log w ++ [EvPrint ("Removing " +:+ file +:+ ".")]))
  end.
Proof.
  cbn [remove_middle_files]. unfold os_remove. munfold. cbn [fs log].
  by destruct (fs w !! file).
Qed.

(** X11. The removal of the intermediate files runs to its end exactly when
    the paths are pairwise distinct and each names a file; a path listed
    twice makes it raise. *)
Theorem remove_middle_files_succeeds_iff mids : ∀ w,
  (∃ w', remove_middle_files mids w = (inr tt, w')) ↔
  NoDup mids ∧ ∀ pdf, pdf ∈ mids → is_Some (fs w !! pdf).
Proof.
  induction mids as [|file mids IH]; intros w.
  - split; [|by eexists]. intros _. split; [constructor|].
    intros pdf Hin. by apply elem_of_nil in Hin.
  - rewrite remove_middle_files_cons, NoDup_cons. split.
    + intros [w' Hrun]. destruct (fs w !! file) as [content|] eqn:Hfile;
        [|discriminate].
      assert (∃ w', remove_middle_files mids
                      (World (delete file (fs w))
                         ((log w ++ [EvPrint ("Removing " +:+ file +:+ ".")]) ++
                          [EvRemove file])) = (inr tt, w')) as Hrest by eauto.
      apply IH in Hrest as [Hdup Hall]. cbn [fs] in Hall.
      split; [split; [|done]|].
      * intros Hin. apply Hall in Hin as [? Hin].
        by rewrite lookup_delete_eq in Hin.
      * intros pdf [->|Hin]%elem_of_cons; [eauto|].
        apply Hall in Hin as [c Hin].
        apply lookup_delete_Some in Hin as [_ Hin]. eauto.
    + intros [[Hfresh Hdup] Hall].
      destruct (Hall file (list_elem_of_here _ _)) as [content ->].
      apply IH. split; [done|]. intros pdf Hin. cbn [fs].
      destruct (Hall pdf (list_elem_of_further _ _ _ Hin)) as [c Hc].
      exists c. apply lookup_delete_Some. split; [|done].
      intros <-. done.
Qed.

Lemma only_deletes_bind {A B} (m : M A) (k : A → M B) :
  only_deletes m → (∀ a, only_deletes (k a)) → only_deletes (m ≫= k).
Proof.
  intros Hm Hk w. unfold mbind, M_bind. specialize (Hm w).
  destruct (m w) as [[e|a] w1]; cbn [snd] in *; [done|].
  etrans; [apply Hk|done].
Qed.

Lemma only_deletes_ret {A} (a : A) : only_deletes (mret a).
Proof. by intros w. Qed.

Lemma only_deletes_emit e : only_deletes (emit e).
Proof. by intros w. Qed.

Lemma only_deletes_os_remove path : only_deletes (os_remove path).
Proof.
  intros w. unfold os_remove. destruct (fs w !! path); [|done].
  apply delete_subseteq.
Qed.

Lemma only_deletes_remove_middle_files mids :
  only_deletes (remove_middle_files mids).
Proof.
  induction mids as [|file mids IH]; cbn [remove_middle_files].
  - apply only_deletes_ret.
  - apply only_deletes_bind; [apply only_deletes_emit|]. intros _.
    apply only_deletes_bind; [apply only_deletes_os_remove|]. intros _. apply IH.
Qed.

Lemma only_deletes_remove_origin_files pat_files input_path listing :
  only_deletes (remove_origin_files pat_files input_path listing).
Proof.
  induction listing as [|file listing IH]; cbn [remove_origin_files].
  - apply only_deletes_ret.
  - destruct (PyStr.mem file pat_files); [|apply IH].
    apply only_deletes_bind; [apply only_deletes_emit|]. intros _.
    apply only_deletes_bind; [apply only_deletes_os_remove|]. intros _. apply IH.
Qed.

(** X12. Whatever its outcome, the cleanup creates no file and alters none:
    the files left are files that were there, with their content. *)
Theorem cleanup_only_deletes `{Host} pat_files input_path mids w :
  fs (cleanup pat_files input_path mids w).2 ⊆ fs w.
Proof.
  revert w. change (only_deletes (cleanup pat_files input_path mids)).
  unfold cleanup.
  apply only_deletes_bind; [apply only_deletes_remove_middle_files|]. intros _.
  apply only_deletes_bind; [by intros w|]. intros listing.
  apply only_deletes_remove_origin_files.
Qed.

(** ** The first loop: entries that are passed over *)

(** X13. A listing without any [.tif] or [.tiff] name leaves no trace: no
    file is opened, nothing is printed, nothing is converted, even for names
    given on the command line. *)
Theorem convert_loop_skips_other_names `{Host} `{Codec}
    pat_files input_path listing acc w :
  forallb (λ f, negb (is_tiff_name f)) listing = true →
  convert_loop pat_files input_path listing acc w = (inr acc, w).
Proof.
  induction listing as [|file listing IH]; [done|].
  cbn [forallb convert_loop]. intros [Hfile Hrest]%andb_true_iff.
  apply negb_true_iff in Hfile. unfold is_tiff_name in Hfile. rewrite Hfile.
  by apply IH.
Qed.

Lemma convert_loop_skips_other_names_witness :
  forallb (λ f, negb (is_tiff_name f)) ["z.txt"; "notes.md"] = true ∧
  convert_loop (H := Demo.little_host) (H0 := Demo.byte_codec) Demo.mixed_argv
    "pdf/input" ["z.txt"; "notes.md"] [] Demo.mixed_world =
  (inr [], Demo.mixed_world).
Proof.
  split; [reflexivity|].
  apply (convert_loop_skips_other_names (H := Demo.little_host)
           (H0 := Demo.byte_codec) Demo.mixed_argv "pdf/input"
           ["z.txt"; "notes.md"] [] Demo.mixed_world).
  reflexivity.
Defined.

(** X14. A file with a TIFF name and another signature is read and
    reported before the command line is consulted: it gets the diagnostic of
    [check_hex] and is not converted, whether its name is an argument or
    not. *)
Theorem convert_loop_reports_unsigned `{Host} `{Codec}
    pat_files file content acc w :
  valid_name file = true →
  is_tiff_name file = true →
  fs w !! ("pdf/input/" +:+ file) = Some content →
  take 4 content ≠ tiff_magic sys_byteorder →
  ∃ evs,
    convert_loop pat_files "pdf/input" [file] acc w =
      (inr acc, World (fs w) (log w ++ evs)) ∧
    printed evs = [not_signed ("pdf/input/" +:+ file)].
Proof.
  intros Hname Htiff Hfile Hsig.
  rewrite convert_loop_cons, Htiff, (check_hex_run _ _ _ Hfile) by done.
  assert (signature_test sys_byteorder content = false) as ->.
  { destruct (signature_test _ _) eqn:Htest; [|done].
    by apply signature_test_spec in Htest. }
  cbn [andb convert_loop]. eexists. split; [reflexivity|].
  unfold check_hex_events. cbn [printed].
  by rewrite printed_app, printed_reads.
Qed.

Lemma convert_loop_reports_unsigned_witness :
  valid_name "y.tif" = true ∧
  is_tiff_name "y.tif" = true ∧
  fs Demo.mixed_world !! ("pdf/input/" +:+ "y.tif") =
    Some [x00; x01; x02; x03; x04] ∧
  take 4 [x00; x01; x02; x03; x04] ≠ tiff_magic (@sys_byteorder Demo.little_host) ∧
  ∃ evs,
    convert_loop (H := Demo.little_host) (H0 := Demo.byte_codec)
      ["tiff2pdf.py"; "job7"] "pdf/input" ["y.tif"] [] Demo.mixed_world =
      (inr [], World (fs Demo.mixed_world) (log Demo.mixed_world ++ evs)) ∧
    printed evs = [not_signed ("pdf/input/" +:+ "y.tif")].
Proof.
  assert (take 4 [x00; x01; x02; x03; x04] ≠
          tiff_magic (@sys_byteorder Demo.little_host)) as Hsig
    by (vm_compute; discriminate).
  split; [reflexivity|]. split; [reflexivity|]. split; [reflexivity|].
  split; [exact Hsig|].
  exact (convert_loop_reports_unsigned (H := Demo.little_host)
           (H0 := Demo.byte_codec) ["tiff2pdf.py"; "job7"] "y.tif"
           [x00; x01; x02; x03; x04] [] Demo.mixed_world
           eq_refl eq_refl eq_refl Hsig).
Defined.

(** ** A conversion that fails *)

(** X15. When the first loop raises, [main] stops with that exception:
    nothing is merged and nothing is cleaned up.  Every file that was there
    is still there, and outside the input directory nothing has changed; the
    intermediate files already written stay. *)
Theorem main_stops_when_conversion_fails `{Host} `{!HostLaws} `{Codec}
    argv now w job e w1 :
  argv !! 1%nat = Some job →
  convert_loop argv "pdf/input" (listdir (fs w) "pdf/input") [] (launched w) =
    (inl e, w1) →
  main argv now w = (inl e, w1) ∧
  (∀ path, is_Some (fs w !! path) → is_Some (fs w1 !! path)) ∧
  (∀ path, PyStr.startswith path "pdf/input/" = false →
           fs w1 !! path = fs w !! path).
Proof.
  intros Hjob Hloop. split.
  - unfold main. rewrite Hjob, input_path_eq.
    unfold os_listdir. munfold. cbn [fs log].
    unfold launched in Hloop. by rewrite Hloop.
  - apply convert_loop_any_outcome in Hloop; [done|apply listdir_valid].
Qed.

Lemma main_stops_when_conversion_fails_witness :
  DemoMore.frameless_argv !! 1%nat = Some "job7" ∧
  convert_loop (H := Demo.little_host) (H0 := Demo.byte_codec)
    DemoMore.frameless_argv "pdf/input"
    (@listdir Demo.little_host (fs DemoMore.frameless_world) "pdf/input") []
    (launched DemoMore.frameless_world) =
  (inl (UnidentifiedImageError "pdf/input/void.tif"),
   (convert_loop (H := Demo.little_host) (H0 := Demo.byte_codec)
      DemoMore.frameless_argv "pdf/input"
      (@listdir Demo.little_host (fs DemoMore.frameless_world) "pdf/input") []
      (launched DemoMore.frameless_world)).2) ∧
  main (H := Demo.little_host) (H0 := Demo.byte_codec)
    DemoMore.frameless_argv Demo.stamp DemoMore.frameless_world =
  (inl (UnidentifiedImageError "pdf/input/void.tif"),
   (convert_loop (H := Demo.little_host) (H0 := Demo.byte_codec)
      DemoMore.frameless_argv "pdf/input"
      (@listdir Demo.little_host (fs DemoMore.frameless_world) "pdf/input") []
      (launched DemoMore.frameless_world)).2) ∧
  (∀ path, is_Some (fs DemoMore.frameless_world !! path) →
           is_Some (fs (convert_loop (H := Demo.little_host)
                          (H0 := Demo.byte_codec) DemoMore.frameless_argv
                          "pdf/input"
                          (@listdir Demo.little_host
                             (fs DemoMore.frameless_world) "pdf/input") []
                          (launched DemoMore.frameless_world)).2 !! path)) ∧
  (∀ path, PyStr.startswith path "pdf/input/" = false →
           fs (convert_loop (H := Demo.little_host) (H0 := Demo.byte_codec)
                 DemoMore.frameless_argv "pdf/input"
                 (@listdir Demo.little_host (fs DemoMore.frameless_world)
                    "pdf/input") []
                 (launched DemoMore.frameless_world)).2 !! path =
           fs DemoMore.frameless_world !! path).
Proof.
  assert (convert_loop (H := Demo.little_host) (H0 := Demo.byte_codec)
            DemoMore.frameless_argv "pdf/input"
            (@listdir Demo.little_host (fs DemoMore.frameless_world) "pdf/input")
            [] (launched DemoMore.frameless_world) =
          (inl (UnidentifiedImageError "pdf/input/void.tif"),
           (convert_loop (H := Demo.little_host) (H0 := Demo.byte_codec)
              DemoMore.frameless_argv "pdf/input"
              (@listdir Demo.little_host (fs DemoMore.frameless_world)
                 "pdf/input") []
              (launched DemoMore.frameless_world)).2)) as Hloop.
  { vm_compute. reflexivity. }
  split; [reflexivity|]. split; [exact Hloop|].
  exact (main_stops_when_conversion_fails (H := Demo.little_host)
           (H1 := Demo.byte_codec) DemoMore.frameless_argv Demo.stamp
           DemoMore.frameless_world "job7" (UnidentifiedImageError "pdf/input/void.tif") _ eq_refl Hloop).
Defined.

(** * The earlier version of the script *)

(** ** [check_hex] and [tiff_to_pdf] before and after *)

Lemma check_hex_v1_run `{Host} path content w :
  fs w !! path = Some content →
  check_hex_v1 path w =
  (inr (signature_test sys_byteorder content),
   World (fs w)
     (log w ++ EvOpen path ::
        (EvRead path <$> chunk_sizes (S (length content)) content 0))).
Proof.
  intros Hfile. unfold check_hex_v1, signature_test.
  erewrite bind_inr; [|unfold open_rb; by rewrite Hfile].
  cbn [h_rest]. erewrite bind_inr; [|apply read_chunks_run].
  cbn [fs log]. change ("" +:+ ?t) with t.
  destruct (String.eqb _ _); munfold; by rewrite <- app_assoc.
Qed.

Lemma check_hex_v1_missing `{Host} path w :
  fs w !! path = None → check_hex_v1 path w = (inl (FileNotFoundError path), w).
Proof.
  intros Hfile. unfold check_hex_v1.
  erewrite bind_inl; [done|]. unfold open_rb. by rewrite Hfile.
Qed.

(** X16. The later [check_hex] is the earlier one with a diagnostic: both
    return the same verdict or raise the same exception after the same
    reads; the earlier one prints nothing, the later one adds its message
    when the verdict is [False]. *)
Theorem check_hex_v1_then_diagnostic `{Host} path w :
  ∃ r evs,
    check_hex_v1 path w = (r, World (fs w) (log w ++ evs)) ∧
    printed evs = [] ∧
    check_hex path w =
      (r, World (fs w)
            (log w ++ evs ++
             match r with
             | inr false => [EvPrint (not_signed path)]
             | _ => []
             end)).
Proof.
  destruct (fs w !! path) as [content|] eqn:Hfile.
  - eexists _, _. split; [by apply check_hex_v1_run|]. split.
    + cbn [printed]. apply printed_reads.
    + rewrite (check_hex_run _ _ _ Hfile). unfold check_hex_events.
      by destruct (signature_test _ _).
  - exists (inl (FileNotFoundError path)), []. rewrite world_eta.
    split; [by apply check_hex_v1_missing|]. split; [done|].
    cbn [app]. rewrite world_eta. by apply check_hex_missing.
Qed.

Lemma tiff_to_pdf_v1_run `{Codec} `{Colorama} path w :
  tiff_to_pdf_v1 path w =
  match fs w !! path with
  | None =>
      (inl (Exception (path +:+ " does not find.")),
       World (fs w)
         (log w ++ [EvExists path;
                    EvPrint (Fore_RED +:+ "Exiting with Error Code 1:")]))
  | Some content =>
      match image_frames content with
      | None =>
          (inl (UnidentifiedImageError path),
           World (fs w) (log w ++ [EvExists path; EvImageOpen path]))
      | Some [] =>
          (inl IndexError,
           World (fs w) (log w ++ [EvExists path; EvImageOpen path]))
      | Some (first :: rest) =>
          match image_save (pdf_path_of path) (convert_rgb first)
                  (convert_rgb <$> rest) with
          | None =>
              (inl (ValueError (pdf_path_of path)),
               World (fs w) (log w ++ [EvExists path; EvImageOpen path]))
          | Some out =>
              (inr (pdf_path_of path),
               World (<[pdf_path_of path := out]> (fs w))
                 (log w ++ [EvExists path; EvImageOpen path;
                            EvSave (pdf_path_of path)]))
          end
      end
  end.
Proof.
  unfold tiff_to_pdf_v1, os_path_exists, image_open, file_content, save_pages,
    write_file.
  munfold. cbn [fs log].
  destruct (fs w !! path) as [content|] eqn:Hfile.
  - rewrite bool_decide_eq_true_2 by eauto. cbn [negb fs log]. rewrite Hfile.
    destruct (image_frames content) as [[|first rest]|];
      cbn [fmap list_fmap length Nat.eqb fs log];
      rewrite <- ?app_assoc; try done.
    destruct rest as [|second rest]; cbn [fmap list_fmap length Nat.eqb];
      munfold; destruct (image_save _ _ _); cbn [fs log];
      rewrite <- ?app_assoc; done.
  - rewrite bool_decide_eq_false_2 by (intros [? ?]; done).
    cbn [negb fs log]. by rewrite <- ?app_assoc.
Qed.

(** X17. The earlier and the later [tiff_to_pdf] return the same path or
    raise the same exception, and leave the same files; on success the
    earlier one prints nothing, the later one that the file was created. *)
Theorem tiff_to_pdf_v1_same_outcome `{Codec} `{Colorama} path w :
  (tiff_to_pdf_v1 path w).1 = (tiff_to_pdf path w).1 ∧
  fs (tiff_to_pdf_v1 path w).2 = fs (tiff_to_pdf path w).2 ∧
  (∀ pdf, (tiff_to_pdf path w).1 = inr pdf →
          ∃ evs, log (tiff_to_pdf_v1 path w).2 = log w ++ evs ∧
                 printed evs = [] ∧
                 log (tiff_to_pdf path w).2 =
                   log w ++ evs ++ [EvPrint (pdf +:+ " created")]).
Proof.
  rewrite tiff_to_pdf_v1_run, tiff_to_pdf_run.
  destruct (fs w !! path) as [content|]; [|by repeat split].
  destruct (image_frames content) as [[|first rest]|]; try by repeat split.
  destruct (image_save _ _ _) as [out|]; [|by repeat split].
  split; [done|]. split; [done|]. intros pdf [= <-]. cbn [snd log].
  exists [EvExists path; EvImageOpen path; EvSave (pdf_path_of path)].
  by repeat split.
Qed.

(** ** The earlier [main] *)

Lemma convert_loop_v1_cons `{Host} `{Codec} `{Colorama}
    input_path file listing acc w :
  convert_loop_v1 input_path (file :: listing) acc w =
  if is_tiff_name file then
    match check_hex_v1 (input_path +:+ file) w with
    | (inl e, w1) => (inl e, w1)
    | (inr signed, w1) =>
        if signed then
          match tiff_to_pdf_v1 (input_path +:+ file) w1 with
          | (inl e, w2) => (inl e, w2)
          | (inr pdf, w2) => convert_loop_v1 input_path listing (acc ++ [pdf]) w2
          end
        else convert_loop_v1 input_path listing acc w1
    end
  else convert_loop_v1 input_path listing acc w.
Proof.
  cbn [convert_loop_v1]. unfold is_tiff_name.
  destruct (PyStr.endswith file ".tiff" || PyStr.endswith file ".tif"); [|done].
  unfold mbind at 1, M_bind at 1.
  destruct (check_hex_v1 _ w) as [[e|signed] w1]; [done|].
  destruct signed; [|done].
  unfold mbind at 1, M_bind at 1. done.
Qed.

Lemma check_hex_v1_accepted `{Host} w path b w' :
  check_hex_v1 path w = (inr b, w') → b = accepted w path ∧ fs w' = fs w.
Proof.
  intros Hrun. rewrite accepted_file.
  destruct (fs w !! path) as [content|] eqn:Hfile.
  - rewrite (check_hex_v1_run _ _ _ Hfile) in Hrun. by injection Hrun as <- <-.
  - by rewrite (check_hex_v1_missing _ _ Hfile) in Hrun.
Qed.

Lemma tiff_to_pdf_v1_returns `{Codec} `{Colorama} path w pdf w' :
  tiff_to_pdf_v1 path w = (inr pdf, w') →
  pdf = pdf_path_of path ∧
  ∃ out, fs w' = <[pdf_path_of path := out]> (fs w).
Proof.
  rewrite tiff_to_pdf_v1_run.
  destruct (fs w !! path) as [content|]; [|discriminate].
  destruct (image_frames content) as [[|first rest]|]; try discriminate.
  destruct (image_save _ _ _) as [out|]; [|discriminate].
  intros [= <- <-]. eauto.
Qed.

Lemma no_clobber_v1_spec input_path listing f1 f2 :
  no_clobber_v1 input_path listing = true →
  f1 ∈ listing → f2 ∈ listing →
  is_tiff_name f1 = true → is_tiff_name f2 = true →
  pdf_path_of (input_path +:+ f1) ≠ input_path +:+ f2.
Proof.
  unfold no_clobber_v1. rewrite forallb_forall.
  intros Hall H1 H2 Ht1 Ht2 Heq.
  apply list_elem_of_In in H1, H2. specialize (Hall f1 H1).
  rewrite forallb_forall in Hall. specialize (Hall f2 H2).
  rewrite Ht1, Ht2, Heq, String.eqb_refl in Hall. done.
Qed.

Lemma convert_loop_v1_spec `{Host} `{Codec} `{Colorama} input_path w0 listing :
  ∀ acc w mids w',
    (∀ f1 f2, f1 ∈ listing → f2 ∈ listing →
              is_tiff_name f1 = true → is_tiff_name f2 = true →
              pdf_path_of (input_path +:+ f1) ≠ input_path +:+ f2) →
    (∀ f, f ∈ listing → is_tiff_name f = true →
          fs w !! (input_path +:+ f) = fs w0 !! (input_path +:+ f)) →
    convert_loop_v1 input_path listing acc w = (inr mids, w') →
    mids = acc ++ ((λ f, pdf_path_of (input_path +:+ f)) <$>
                   List.filter (selected_v1 input_path w0) listing).
Proof.
  induction listing as [|file listing IH]; intros acc w mids w' Hclob Hsame.
  - cbn. intros [= <- _]. by rewrite app_nil_r.
  - assert (∀ f1 f2, f1 ∈ listing → f2 ∈ listing →
              is_tiff_name f1 = true → is_tiff_name f2 = true →
              pdf_path_of (input_path +:+ f1) ≠ input_path +:+ f2) as Hclob'.
    { intros f1 f2 Hin1 Hin2. apply Hclob; by apply list_elem_of_further. }
    rewrite convert_loop_v1_cons. cbn [List.filter]. unfold selected_v1 at 1.
    destruct (is_tiff_name file) eqn:Htiff; cbn [andb].
    + destruct (check_hex_v1 _ w) as [[e|signed] w1] eqn:Hcheck; [discriminate|].
      apply check_hex_v1_accepted in Hcheck as [-> Hfs1].
      rewrite !accepted_file, (Hsame file) by (done || apply list_elem_of_here).
      rewrite <- accepted_file.
      destruct (accepted w0 _) eqn:Hsel.
      * destruct (tiff_to_pdf_v1 _ w1) as [[e|pdf] w2] eqn:Hconv; [discriminate|].
        apply tiff_to_pdf_v1_returns in Hconv as [-> [out Hfs2]].
        intros Hloop. apply IH in Hloop; [|done|].
        { rewrite Hloop, <- app_assoc. done. }
        intros f Hf Hft. rewrite Hfs2, Hfs1.
        rewrite lookup_insert_ne.
        { apply Hsame; [by apply list_elem_of_further|done]. }
        apply Hclob; [apply list_elem_of_here|by apply list_elem_of_further|done..].
      * intros Hloop. apply IH in Hloop; [done..|].
        intros f Hf Hft. rewrite Hfs1.
        apply Hsame; [by apply list_elem_of_further|done].
    + intros Hloop. apply IH in Hloop; [done..|].
      intros f Hf Hft. apply Hsame; [by apply list_elem_of_further|done].
Qed.

Lemma convert_loop_v1_frame `{Host} `{Codec} `{Colorama} input_path listing :
  ∀ acc w mids w',
    convert_loop_v1 input_path listing acc w = (inr mids, w') →
    ∃ new, mids = acc ++ new ∧
           Forall (λ p, ∃ f, p = pdf_path_of (input_path +:+ f)) new ∧
           ∀ path, path ∉ new → fs w' !! path = fs w !! path.
Proof.
  induction listing as [|file listing IH]; intros acc w mids w'.
  - cbn. intros [= <- <-]. exists []. by rewrite app_nil_r.
  - rewrite convert_loop_v1_cons.
    destruct (is_tiff_name file); [|by apply IH].
    destruct (check_hex_v1 _ w) as [[e|signed] w1] eqn:Hcheck; [discriminate|].
    apply check_hex_v1_accepted in Hcheck as [_ Hfs1].
    destruct signed.
    + destruct (tiff_to_pdf_v1 _ w1) as [[e|pdf] w2] eqn:Hconv; [discriminate|].
      apply tiff_to_pdf_v1_returns in Hconv as [-> [out Hfs2]].
      intros Hloop. apply IH in Hloop as (new & -> & Hnew & Hframe).
      exists (pdf_path_of (input_path +:+ file) :: new).
      split; [by rewrite <- app_assoc|]. split; [constructor; eauto|].
      intros path Hpath. apply not_elem_of_cons in Hpath as [Hne Hpath].
      rewrite (Hframe _ Hpath), Hfs2, Hfs1. by rewrite lookup_insert_ne.
    + intros Hloop. apply IH in Hloop as (new & -> & Hnew & Hframe).
      exists new. split; [done|]. split; [done|]. intros path Hpath.
      by rewrite (Hframe _ Hpath), Hfs1.
Qed.

Lemma check_hex_v1_returns `{Host} path w b w' :
  check_hex_v1 path w = (inr b, w') →
  b = accepted w path ∧
  ∃ evs, w' = World (fs w) (log w ++ evs) ∧
         images_opened evs = [] ∧ documents_saved evs = [].
Proof.
  intros Hrun. rewrite accepted_file.
  destruct (fs w !! path) as [content|] eqn:Hfile.
  - rewrite (check_hex_v1_run _ _ _ Hfile) in Hrun. injection Hrun as <- <-.
    split; [done|]. eexists. split; [reflexivity|].
    cbn [images_opened documents_saved]. apply reads_open_nothing.
  - by rewrite (check_hex_v1_missing _ _ Hfile) in Hrun.
Qed.

Lemma tiff_to_pdf_v1_returns_log `{Codec} `{Colorama} path w pdf w' :
  tiff_to_pdf_v1 path w = (inr pdf, w') →
  pdf = pdf_path_of path ∧
  ∃ out, w' = World (<[pdf_path_of path := out]> (fs w))
                (log w ++ [EvExists path; EvImageOpen path;
                           EvSave (pdf_path_of path)]).
Proof.
  rewrite tiff_to_pdf_v1_run.
  destruct (fs w !! path) as [content|]; [|discriminate].
  destruct (image_frames content) as [[|first rest]|]; try discriminate.
  destruct (image_save _ _ _) as [out|]; [|discriminate].
  intros [= <- <-]. eauto.
Qed.

(** The images opened and the documents saved by the earlier loop are those
    of the signed TIFF entries, in the order of the listing; the documents
    are there when the loop ends, and no file has been removed. *)
Lemma convert_loop_v1_effects `{Host} `{Codec} `{Colorama}
    input_path w0 listing :
  ∀ acc w mids w',
    (∀ f1 f2, f1 ∈ listing → f2 ∈ listing →
              is_tiff_name f1 = true → is_tiff_name f2 = true →
              pdf_path_of (input_path +:+ f1) ≠ input_path +:+ f2) →
    (∀ f, f ∈ listing → is_tiff_name f = true →
          fs w !! (input_path +:+ f) = fs w0 !! (input_path +:+ f)) →
    convert_loop_v1 input_path listing acc w = (inr mids, w') →
    ∃ evs,
      log w' = log w ++ evs ∧
      images_opened evs =
        (λ f, input_path +:+ f) <$>
        List.filter (selected_v1 input_path w0) listing ∧
      documents_saved evs =
        (λ f, pdf_path_of (input_path +:+ f)) <$>
        List.filter (selected_v1 input_path w0) listing ∧
      (∀ path, is_Some (fs w !! path) → is_Some (fs w' !! path)) ∧
      (∀ pdf, pdf ∈ (λ f, pdf_path_of (input_path +:+ f)) <$>
                    List.filter (selected_v1 input_path w0) listing →
              is_Some (fs w' !! pdf)).
Proof.
  induction listing as [|file listing IH]; intros acc w mids w' Hclob Hsame.
  - cbn. intros [= _ <-]. exists []. rewrite app_nil_r.
    do 4 (split; [done|]). intros pdf Hin. by apply elem_of_nil in Hin.
  - assert (∀ f1 f2, f1 ∈ listing → f2 ∈ listing →
              is_tiff_name f1 = true → is_tiff_name f2 = true →
              pdf_path_of (input_path +:+ f1) ≠ input_path +:+ f2) as Hclob'.
    { intros f1 f2 Hin1 Hin2. apply Hclob; by apply list_elem_of_further. }
    rewrite convert_loop_v1_cons. cbn [List.filter].
    change (selected_v1 input_path w0 file)
      with (is_tiff_name file && accepted w0 (input_path +:+ file)).
    destruct (is_tiff_name file) eqn:Htiff; cbn [andb].
    + destruct (check_hex_v1 _ w) as [[e|signed] w1] eqn:Hcheck; [discriminate|].
      apply check_hex_v1_returns in Hcheck as [-> (evs1 & -> & Hopen1 & Hsave1)].
      rewrite !accepted_file, (Hsame file) by (done || apply list_elem_of_here).
      rewrite <- accepted_file.
      destruct (accepted w0 _) eqn:Hsel.
      * destruct (tiff_to_pdf_v1 _ _) as [[e|pdf] w2] eqn:Hconv; [discriminate|].
        apply tiff_to_pdf_v1_returns_log in Hconv as [-> [out ->]]. cbn [fs log].
        intros Hloop.
        apply IH in Hloop as (evs & Hlog & Hopen & Hsave & Hkeep & Hthere);
          [|done|].
        { cbn [log fs] in Hlog, Hkeep.
          assert (∀ path, is_Some (fs w !! path) → is_Some (fs w' !! path))
            as Hkeep'.
          { intros path Hpath. apply Hkeep.
            destruct (decide (pdf_path_of (input_path +:+ file) = path))
              as [<-|Hne]; [rewrite lookup_insert_eq; eauto|].
            by rewrite lookup_insert_ne. }
          eexists. split; [|split; [|split; [|split; [exact Hkeep'|]]]].
          - rewrite Hlog, <- !app_assoc. reflexivity.
          - rewrite !images_opened_app, Hopen1, Hopen. done.
          - rewrite !documents_saved_app, Hsave1, Hsave. done.
          - intros pdf [->|Hin]%elem_of_cons; [|by apply Hthere].
            apply Hkeep. rewrite lookup_insert_eq. eauto. }
        intros f Hf Hft. cbn [fs]. rewrite lookup_insert_ne.
        { apply Hsame; [by apply list_elem_of_further|done]. }
        apply Hclob; [apply list_elem_of_here|by apply list_elem_of_further|done..].
      * intros Hloop.
        apply IH in Hloop as (evs & Hlog & Hopen & Hsave & Hkeep & Hthere);
          [|done|].
        { cbn [log fs] in Hlog, Hkeep.
          eexists. split; [|split; [|split; [|split; [exact Hkeep|done]]]].
          - rewrite Hlog, <- !app_assoc. reflexivity.
          - rewrite !images_opened_app, Hopen1, Hopen. done.
          - rewrite !documents_saved_app, Hsave1, Hsave. done. }
        intros f Hf Hft. cbn [fs].
        apply Hsame; [by apply list_elem_of_further|done].
    + intros Hloop. apply IH in Hloop; [done..|].
      intros f Hf Hft. apply Hsame; [by apply list_elem_of_further|done].
Qed.

(** X18. The earlier [main] consults no argument: when its first loop runs
    to its end, it has converted every entry of the listing that ends in
    [.tif] or [.tiff] and that [check_hex] accepts, and no other: these are
    the sources whose image was opened and whose document was saved, in the
    order of the listing; the documents are there at the end, under the
    paths the loop returns, and no other file has been written or changed.
    (No intermediate path is itself a listed TIFF name.) *)
Theorem convert_loop_v1_selects `{Host} `{Codec} `{Colorama}
    input_path listing w mids w' :
  no_clobber_v1 input_path listing = true →
  convert_loop_v1 input_path listing [] w = (inr mids, w') →
  ∃ converted evs,
    converted =
      List.filter (λ f, is_tiff_name f && accepted w (input_path +:+ f)) listing ∧
    mids = (λ f, pdf_path_of (input_path +:+ f)) <$> converted ∧
    log w' = log w ++ evs ∧
    images_opened evs = (λ f, input_path +:+ f) <$> converted ∧
    documents_saved evs = mids ∧
    (∀ path, path ∉ mids → fs w' !! path = fs w !! path) ∧
    (∀ pdf, pdf ∈ mids → is_Some (fs w' !! pdf)).
Proof.
  intros Hclob Hloop.
  assert (∀ f1 f2, f1 ∈ listing → f2 ∈ listing →
            is_tiff_name f1 = true → is_tiff_name f2 = true →
            pdf_path_of (input_path +:+ f1) ≠ input_path +:+ f2) as Hclob'.
  { intros f1 f2. by apply no_clobber_v1_spec. }
  assert (∀ f, f ∈ listing → is_tiff_name f = true →
               fs w !! (input_path +:+ f) = fs w !! (input_path +:+ f))
    as Hsame by done.
  pose proof (convert_loop_v1_spec input_path w listing [] w mids w'
                Hclob' Hsame Hloop) as Hmids.
  cbn [app] in Hmids.
  destruct (convert_loop_v1_effects input_path w listing [] w mids w'
              Hclob' Hsame Hloop) as (evs & Hlog & Hopen & Hsave & _ & Hthere).
  destruct (convert_loop_v1_frame input_path listing [] w mids w' Hloop)
    as (new & Hnew & _ & Hframe).
  cbn [app] in Hnew. subst new.
  exists (List.filter (selected_v1 input_path w) listing), evs.
  split; [done|]. split; [done|]. split; [done|]. split; [done|].
  split; [by rewrite Hmids|]. split; [done|]. by rewrite Hmids.
Qed.

Lemma convert_loop_v1_selects_witness :
  no_clobber_v1 "input/" ["y.tif"; "a.tiff"; "z.txt"; "b.tif"] = true ∧
  convert_loop_v1 (H := DemoV1.host) (H0 := Demo.byte_codec)
    (H1 := DemoV1.colours) "input/" ["y.tif"; "a.tiff"; "z.txt"; "b.tif"] []
    DemoV1.batch_world =
  (inr ["input/a.pdf"; "input/b.pdf"],
   (convert_loop_v1 (H := DemoV1.host) (H0 := Demo.byte_codec)
      (H1 := DemoV1.colours) "input/" ["y.tif"; "a.tiff"; "z.txt"; "b.tif"] []
      DemoV1.batch_world).2) ∧
  List.filter (λ f, is_tiff_name f &&
                    accepted (H := DemoV1.host) DemoV1.batch_world ("input/" +:+ f))
    ["y.tif"; "a.tiff"; "z.txt"; "b.tif"] = ["a.tiff"; "b.tif"] ∧
  ∃ converted evs,
    converted =
      List.filter (λ f, is_tiff_name f &&
                        accepted (H := DemoV1.host) DemoV1.batch_world
                          ("input/" +:+ f))
        ["y.tif"; "a.tiff"; "z.txt"; "b.tif"] ∧
    ["input/a.pdf"; "input/b.pdf"] =
      (λ f, pdf_path_of ("input/" +:+ f)) <$> converted ∧
    log (convert_loop_v1 (H := DemoV1.host) (H0 := Demo.byte_codec)
           (H1 := DemoV1.colours) "input/" ["y.tif"; "a.tiff"; "z.txt"; "b.tif"]
           [] DemoV1.batch_world).2 = log DemoV1.batch_world ++ evs ∧
    images_opened evs = (λ f, "input/" +:+ f) <$> converted ∧
    documents_saved evs = ["input/a.pdf"; "input/b.pdf"] ∧
    (∀ path, path ∉ ["input/a.pdf"; "input/b.pdf"] →
             fs (convert_loop_v1 (H := DemoV1.host) (H0 := Demo.byte_codec)
                   (H1 := DemoV1.colours) "input/"
                   ["y.tif"; "a.tiff"; "z.txt"; "b.tif"] []
                   DemoV1.batch_world).2 !! path =
             fs DemoV1.batch_world !! path) ∧
    (∀ pdf, pdf ∈ ["input/a.pdf"; "input/b.pdf"] →
            is_Some (fs (convert_loop_v1 (H := DemoV1.host)
                           (H0 := Demo.byte_codec) (H1 := DemoV1.colours)
                           "input/" ["y.tif"; "a.tiff"; "z.txt"; "b.tif"] []
                           DemoV1.batch_world).2 !! pdf)).
Proof.
  assert (convert_loop_v1 (H := DemoV1.host) (H0 := Demo.byte_codec)
            (H1 := DemoV1.colours) "input/" ["y.tif"; "a.tiff"; "z.txt"; "b.tif"]
            [] DemoV1.batch_world =
          (inr ["input/a.pdf"; "input/b.pdf"],
           (convert_loop_v1 (H := DemoV1.host) (H0 := Demo.byte_codec)
              (H1 := DemoV1.colours) "input/"
              ["y.tif"; "a.tiff"; "z.txt"; "b.tif"] [] DemoV1.batch_world).2))
    as Hloop.
  { vm_compute. reflexivity. }
  split; [reflexivity|]. split; [exact Hloop|]. split; [vm_compute; reflexivity|].
  exact (convert_loop_v1_selects (H := DemoV1.host) (H0 := Demo.byte_codec)
           (H1 := DemoV1.colours) "input/" ["y.tif"; "a.tiff"; "z.txt"; "b.tif"]
           DemoV1.batch_world _ _ eq_refl Hloop).
Defined.

Lemma no_exit_check_hex_v1 `{Host} path : no_exit (check_hex_v1 path).
Proof.
  intros w w'. destruct (fs w !! path) as [content|] eqn:Hfile.
  - by rewrite (check_hex_v1_run _ _ _ Hfile).
  - by rewrite (check_hex_v1_missing _ _ Hfile).
Qed.

Lemma no_exit_tiff_to_pdf_v1 `{Codec} `{Colorama} path :
  no_exit (tiff_to_pdf_v1 path).
Proof.
  intros w w'. rewrite tiff_to_pdf_v1_run.
  destruct (fs w !! path) as [content|]; [|done].
  destruct (image_frames content) as [[|first rest]|]; try done.
  by destruct (image_save _ _ _).
Qed.

Lemma no_exit_convert_loop_v1 `{Host} `{Codec} `{Colorama} input_path listing :
  ∀ acc, no_exit (convert_loop_v1 input_path listing acc).
Proof.
  induction listing as [|file listing IH]; intros acc; cbn [convert_loop_v1].
  - apply no_exit_ret.
  - destruct (_ || _); [|apply IH].
    apply no_exit_bind; [apply no_exit_check_hex_v1|]. intros signed.
    destruct signed; [|apply IH].
    apply no_exit_bind; [apply no_exit_tiff_to_pdf_v1|]. intros pdf. apply IH.
Qed.

Lemma no_exit_remove_middle_files_v1 `{Colorama} mids :
  no_exit (remove_middle_files_v1 mids).
Proof.
  induction mids as [|file mids IH]; cbn [remove_middle_files_v1].
  - apply no_exit_ret.
  - apply no_exit_bind; [apply no_exit_os_remove|]. intros _.
    apply no_exit_bind; [apply no_exit_emit|]. intros _. apply IH.
Qed.

Lemma remove_middle_files_v1_run `{Colorama} mids : ∀ w w',
  remove_middle_files_v1 mids w = (inr tt, w') → fs w' = delete_all mids (fs w).
Proof.
  induction mids as [|file mids IH]; intros w w'.
  - cbn. by intros [= <-].
  - cbn [remove_middle_files_v1]. unfold mbind at 1, M_bind at 1.
    destruct (os_remove file w) as [[e|[]] w1] eqn:Hrm; [discriminate|].
    apply os_remove_returns in Hrm. munfold. cbn [fs log].
    intros Hrest. apply IH in Hrest. cbn [fs] in Hrest. by rewrite Hrest, Hrm.
Qed.

Lemma input_intermediate_not_output f now :
  pdf_path_of ("input/" +:+ f) ≠ "outputs/" +:+ outfile_name_v1 now.
Proof.
  unfold pdf_path_of.
  change (PyStr.contains ".tiff" ("input/" +:+ f))
    with (PyStr.contains ".tiff" f).
  by destruct (PyStr.contains ".tiff" f).
Qed.

(** X19. The earlier [main] deletes no source.  After a run that ends with
    [quit()] the intermediate files are gone, the merged document is in
    [outputs/], and every other file, the sources included, is as it was. *)
Theorem main_v1_keeps_sources `{Host} `{Codec} `{Colorama} now w w' :
  main_v1 now w = (inl SystemExit, w') →
  ∃ mids w1 merger w2,
    convert_loop_v1 "input/" (listdir (fs w) "input/") [] (launched_v1 w) =
      (inr mids, w1) ∧
    append_all mids [] w1 = (inr merger, w2) ∧
    (∀ pdf, pdf ∈ mids → fs w' !! pdf = None) ∧
    fs w' !! ("outputs/" +:+ outfile_name_v1 now) = Some (pdf_write merger) ∧
    (∀ path, path ∉ mids →
             path ≠ "outputs/" +:+ outfile_name_v1 now →
             fs w' !! path = fs w !! path).
Proof.
  unfold main_v1. intros Hrun.
  unfold print at 1, emit at 1, mbind at 1, M_bind at 1 in Hrun.
  unfold os_listdir at 1, mbind at 1, M_bind at 1 in Hrun. cbn [fs log] in Hrun.
  fold (launched_v1 w) in Hrun.
  apply bind_exit_inv in Hrun as (mids & w1 & Hloop & Hrun);
    [|apply no_exit_convert_loop_v1].
  apply bind_exit_inv in Hrun as (merger & w2 & Happ & Hrun);
    [|apply no_exit_append_all].
  unfold merger_write, write_file in Hrun.
  unfold print at 1, emit at 1 2, mbind at 1 2 3, M_bind at 1 2 3 in Hrun.
  cbn [fs log] in Hrun.
  apply bind_exit_inv in Hrun as ([] & w4 & Hclean & Hrun);
    [|apply no_exit_remove_middle_files_v1].
  munfold. cbn [fs log] in Hrun. injection Hrun as <-. cbn [fs].
  apply remove_middle_files_v1_run in Hclean. cbn [fs] in Hclean.
  pose proof (append_all_frame _ _ _ _ _ Happ) as Hfs2.
  pose proof (convert_loop_v1_frame _ _ _ _ _ _ Hloop) as (new & Hmids & Hnew & Hframe).
  cbn [app] in Hmids. subst new.
  exists mids, w1, merger, w2. split; [done|]. split; [done|].
  rewrite Hclean. split; [|split].
  - intros pdf Hpdf. by rewrite lookup_delete_all, bool_decide_eq_true_2.
  - rewrite lookup_delete_all, bool_decide_eq_false_2; [apply lookup_insert_eq|].
    intros Hin. rewrite Forall_forall in Hnew.
    destruct (Hnew _ Hin) as [f Hf]. symmetry in Hf.
    by apply input_intermediate_not_output in Hf.
  - intros path Hpath Hout.
    rewrite lookup_delete_all, bool_decide_eq_false_2 by done.
    rewrite lookup_insert_ne, Hfs2, (Hframe _ Hpath) by done. done.
Qed.

Lemma main_v1_keeps_sources_witness :
  ∃ w',
    main_v1 (H := DemoV1.host) (H0 := Demo.byte_codec) (H1 := DemoV1.colours)
      Demo.stamp DemoV1.batch_world = (inl SystemExit, w') ∧
    ∃ mids w1 merger w2,
      convert_loop_v1 (H := DemoV1.host) (H0 := Demo.byte_codec)
        (H1 := DemoV1.colours) "input/"
        (@listdir DemoV1.host (fs DemoV1.batch_world) "input/") []
        (launched_v1 DemoV1.batch_world) = (inr mids, w1) ∧
      append_all (H := Demo.byte_codec) mids [] w1 = (inr merger, w2) ∧
      (∀ pdf, pdf ∈ mids → fs w' !! pdf = None) ∧
      fs w' !! ("outputs/" +:+ outfile_name_v1 Demo.stamp) =
        Some (pdf_write (Codec := Demo.byte_codec) merger) ∧
      (∀ path, path ∉ mids →
               path ≠ "outputs/" +:+ outfile_name_v1 Demo.stamp →
               fs w' !! path = fs DemoV1.batch_world !! path).
Proof.
  exists (main_v1 (H := DemoV1.host) (H0 := Demo.byte_codec)
            (H1 := DemoV1.colours) Demo.stamp DemoV1.batch_world).2.
  assert (main_v1 (H := DemoV1.host) (H0 := Demo.byte_codec)
            (H1 := DemoV1.colours) Demo.stamp DemoV1.batch_world =
          (inl SystemExit,
           (main_v1 (H := DemoV1.host) (H0 := Demo.byte_codec)
              (H1 := DemoV1.colours) Demo.stamp DemoV1.batch_world).2)) as Hrun.
  { vm_compute. reflexivity. }
  split; [exact Hrun|].
  exact (main_v1_keeps_sources (H := DemoV1.host) (H0 := Demo.byte_codec)
           (H1 := DemoV1.colours) Demo.stamp DemoV1.batch_world _ Hrun).
Defined.

(** * The intermediate file lies beside its source *)

Lemma contains_after_plain_prefix sub dir s :
  PyStr.startswith sub "." = true →
  PyStr.contains "." dir = false →
  PyStr.contains sub (dir +:+ s) = PyStr.contains sub s.
Proof.
  intros Hsub. induction dir as [|c dir IH]; [done|].
  change (String c dir +:+ s) with (String c (dir +:+ s)).
  cbn [PyStr.contains PyStr.startswith].
  intros [Hc Hdir]%orb_false_iff. rewrite andb_true_r in Hc.
  rewrite (IH Hdir). destruct sub as [|a sub]; [done|].
  cbn [PyStr.startswith] in *. apply andb_true_iff in Hsub as [Ha _].
  apply Ascii.eqb_eq in Ha as <-. rewrite Ascii.eqb_sym in Hc.
  by rewrite Ascii.eqb_sym, Hc.
Qed.

Lemma replace_after_plain_prefix old new dir s :
  PyStr.startswith old "." = true →
  PyStr.contains "." dir = false →
  PyStr.replace_from old new 0 (dir +:+ s) = dir +:+ PyStr.replace_from old new 0 s.
Proof.
  intros Hold. induction dir as [|c dir IH]; [done|].
  change (String c dir +:+ ?t) with (String c (dir +:+ t)).
  cbn [PyStr.contains PyStr.startswith PyStr.replace_from].
  intros [Hc Hdir]%orb_false_iff. rewrite andb_true_r in Hc.
  rewrite (IH Hdir). destruct old as [|a old]; [done|].
  cbn [PyStr.startswith] in *. apply andb_true_iff in Hold as [Ha _].
  apply Ascii.eqb_eq in Ha as <-. rewrite Ascii.eqb_sym in Hc.
  by rewrite Ascii.eqb_sym, Hc.
Qed.

(** X20. When the directory part of a path holds no dot, the intermediate
    path lies in the same directory: the replacement only touches the file
    name. *)
Theorem pdf_path_of_same_directory dir name :
  PyStr.contains "." dir = false →
  pdf_path_of (dir +:+ name) = dir +:+ pdf_path_of name.
Proof.
  intros Hdir. unfold pdf_path_of, PyStr.replace.
  rewrite (contains_after_plain_prefix ".tiff") by done.
  destruct (PyStr.contains ".tiff" name);
    by rewrite replace_after_plain_prefix.
Qed.

Lemma pdf_path_of_same_directory_witness :
  PyStr.contains "." "scans/2022/" = false ∧
  pdf_path_of ("scans/2022/" +:+ "page.v2.tiff") =
  "scans/2022/" +:+ pdf_path_of "page.v2.tiff".
Proof.
  split; [reflexivity|].
  apply (pdf_path_of_same_directory "scans/2022/" "page.v2.tiff").
  reflexivity.
Defined.

(** A directory named with the extension is renamed as well: the document
    is then written elsewhere. *)
Example pdf_path_of_dotted_directory :
  pdf_path_of "scans.tif/page.tif" = "scans.pdf/page.pdf".
Proof. reflexivity. Qed.
